(** * dqnroute: the conveyor model (src/dqnroute/conveyor_model.py)

    A shallow embedding of [ConveyorModel] and of the helpers it uses,
    followed by the properties of its operations.

    Numbers.  The Python code computes with [float] positions, speeds and
    times.  They are modelled by exact rationals ([Q]); [==] of Python is
    [Qeq], and [round(x, 5)] is rounding to the nearest multiple of 10^-5,
    ties to the even multiple, as the built-in does on the exact value of
    its argument.  Nothing below depends on binary floating-point error.

    Effects.  A method mutates [self] in place and may raise.  An exception
    does not undo the assignments made before it, so a computation returns
    an outcome together with the model as the caller finds it afterwards.

    Scope.  The constructor, the automaton, the four mutating methods,
    [resume], [pause], the resolving brackets and the position queries are
    embedded, and so are [nextEvents] and [immediateEvents], which only
    read [self].  [nextCheckpoint] is left out: it is one call of the
    search of [dqnroute.utils] with the preference 'next', which the
    sources do not contain.  The strings of the automaton are the
    constructors of [State] and [Action]; the actions ['resume'] and
    ['pause'] are written [resume_] and [pause_], and the queries [dirty()]
    and [resolving()] are [is_dirty] and [is_resolving], to keep them apart
    from the methods and states of the same name. *)

From Stdlib Require Import ZArith QArith Qround Qabs Lia Lqa String List Sorted.
From stdpp Require Import base option list sorting gmap strings.

Local Open Scope Z_scope.

(** ** Numbers *)

Module Num.

Definition POS_ROUND_DIGITS : nat := 5.

(** 10^POS_ROUND_DIGITS, the number of rounding units in 1. *)
Definition scale : Z := 10 ^ Z.of_nat POS_ROUND_DIGITS.

Definition Qlt_bool (x y : Q) : bool := negb (Qle_bool y x).

(** Nearest integer, ties to even. *)
Definition round_half_even (y : Q) : Z :=
  let f := Qfloor y in
  match Qcompare (y - inject_Z f) (1 # 2) with
  | Lt => f
  | Gt => f + 1
  | Eq => if Z.even f then f else f + 1
  end.

(** [round(x, POS_ROUND_DIGITS)]. *)
Definition round5 (x : Q) : Q :=
  Qmake (round_half_even (x * inject_Z scale)) (Z.to_pos scale).

(** A stored position is rounded when rounding gives it back; such a number
    is a count of units over the denominator 10^5, so two rounded positions
    that are [==] are the same term. *)
Definition rounded (p : Q) : Prop := round5 p = p.

End Num.
Export Num.

(** ** Identifiers, exceptions and the lifecycle automaton *)

Definition ObjectId : Type := Z.
Definition AgentId : Type := (string * Z)%type.
Definition CheckpointId : Type := (string * Z)%type.

Inductive State : Type := pristine | moving | dirty | resolving | resolved.

Inductive Action : Type :=
  resume_ | pause_ | change | start_resolving | end_resolving.

#[global] Instance State_eq_dec : EqDecision State.
Proof. solve_decision. Defined.
#[global] Instance Action_eq_dec : EqDecision Action.
Proof. solve_decision. Defined.

(** The dictionary of dictionaries [_model_automata]; [None] is a missing
    key. *)
Definition _model_automata (s : State) (a : Action) : option State :=
  match s, a with
  | pristine, resume_ => Some moving
  | pristine, change => Some dirty
  | moving, pause_ => Some pristine
  | dirty, change => Some dirty
  | dirty, start_resolving => Some resolving
  | resolving, change => Some resolving
  | resolving, end_resolving => Some resolved
  | resolved, resume_ => Some moving
  | _, _ => None
  end.

Section Model.

Context {Payload : Type}.

(** What a method can raise.  [CollisionException] keeps the four fields
    [obj1], [obj2], [pos] and [handler]; [AutomataException] the action and
    the state of its message; [KeyError] and [TypeError] are the built-in
    failures of [dict.pop], [dict.__getitem__] and [list.pop(None)]. *)
Inductive Exn : Type :=
  | CollisionException (obj1 obj2 : Payload) (pos : Q) (handler : AgentId)
  | AutomataException (action : Action) (st : State)
  | AssertionError (msg : string)
  | KeyError
  | TypeError.

Inductive Outcome (A : Type) : Type :=
  | Ok (a : A)
  | Raise (e : Exn).
Arguments Ok {A} a.
Arguments Raise {A} e.

Record ConveyorModel : Type := mkModel {
  model_id : AgentId;
  checkpoints : list (CheckpointId * Q);
  checkpoint_positions : gmap CheckpointId Q;
  length : Q;
  max_speed : Q;
  _state : State;
  _resume_time : Q;
  speed : Q;
  objects : gmap ObjectId Payload;
  object_positions : list (ObjectId * Q)
}.

Definition set_state (s : State) (m : ConveyorModel) : ConveyorModel :=
  mkModel (model_id m) (checkpoints m) (checkpoint_positions m) (length m)
    (max_speed m) s (_resume_time m) (speed m) (objects m)
    (object_positions m).

Definition set_resume_time (t : Q) (m : ConveyorModel) : ConveyorModel :=
  mkModel (model_id m) (checkpoints m) (checkpoint_positions m) (length m)
    (max_speed m) (_state m) t (speed m) (objects m) (object_positions m).

Definition set_speed (v : Q) (m : ConveyorModel) : ConveyorModel :=
  mkModel (model_id m) (checkpoints m) (checkpoint_positions m) (length m)
    (max_speed m) (_state m) (_resume_time m) v (objects m)
    (object_positions m).

Definition set_objects (o : gmap ObjectId Payload) (m : ConveyorModel)
  : ConveyorModel :=
  mkModel (model_id m) (checkpoints m) (checkpoint_positions m) (length m)
    (max_speed m) (_state m) (_resume_time m) (speed m) o
    (object_positions m).

Definition set_object_positions (ps : list (ObjectId * Q))
  (m : ConveyorModel) : ConveyorModel :=
  mkModel (model_id m) (checkpoints m) (checkpoint_positions m) (length m)
    (max_speed m) (_state m) (_resume_time m) (speed m) (objects m) ps.

(** *** The monad of methods: state that survives an exception *)

Definition M (A : Type) : Type := ConveyorModel -> Outcome A * ConveyorModel.

Definition ret {A} (a : A) : M A := fun m => (Ok a, m).

Definition bind {A B} (c : M A) (k : A -> M B) : M B :=
  fun m =>
    match c m with
    | (Ok a, m') => k a m'
    | (Raise e, m') => (Raise e, m')
    end.

Definition raise {A} (e : Exn) : M A := fun m => (Raise e, m).

Definition get : M ConveyorModel := fun m => (Ok m, m).

Definition modify (f : ConveyorModel -> ConveyorModel) : M unit :=
  fun m => (Ok tt, f m).

Definition assert_ (b : bool) (msg : string) : M unit :=
  if b then ret tt else raise (AssertionError msg).

Definition lift {A} (o : Outcome A) : M A := fun m => (o, m).

End Model.

Arguments Exn : clear implicits.
Arguments ConveyorModel : clear implicits.
Arguments M : clear implicits.
Arguments Outcome : clear implicits.
Arguments Ok {Payload A} a.
Arguments Raise {Payload A} e.

Declare Scope conv_scope.
Delimit Scope conv_scope with conv.
Notation "x <- c1 ;; c2" := (bind c1 (fun x => c2))
  (at level 100, c1 at next level, right associativity) : conv_scope.
Notation "c1 ;; c2" := (bind c1 (fun _ => c2))
  (at level 100, right associativity) : conv_scope.

Local Open Scope conv_scope.

(** ** Searching a list of positions *)

Section Search.

Context {Payload A : Type}.

(** Modelled from the spec: [differs_from] of [dqnroute.utils] is not part
    of the sources.  The search compares entries by the distance of their
    position ([using=lambda p: p[1]]) from the position looked for. *)
Definition differs_from (pos : Q) (e : A * Q) : Q := Qabs (snd e - pos).

(** Modelled from the spec: [binary_search] and [differs_from] of
    [dqnroute.utils] are not part of the sources.  With the preference
    'nearest' the search returns the entry whose position is closest to
    [pos], and on a tie the earlier one in iteration order; with
    [return_index] it returns the index of that entry as well.  The scan
    keeps the closest entry met so far and its index. *)
Fixpoint nearest_from (pos : Q) (best : (A * Q) * nat) (i : nat)
  (ls : list (A * Q)) : (A * Q) * nat :=
  match ls with
  | [] => best
  | e :: ls' =>
      nearest_from pos
        (if Qlt_bool (differs_from pos e) (differs_from pos (fst best))
         then (e, i) else best)
        (S i) ls'
  end.

(** [search_pos(ls, pos, return_index=True)]: the assertion on the empty
    list is the source's own. *)
Definition search_pos (ls : list (A * Q)) (pos : Q)
  : Outcome Payload ((A * Q) * nat) :=
  match ls with
  | [] => Raise (AssertionError "what are you gonna find pal?!")
  | e :: ls' => Ok (nearest_from pos (e, 0%nat) 1 ls')
  end.

End Search.

(** ** The methods of [ConveyorModel] *)

Section Methods.

Context {Payload : Type}.

Local Open Scope Q_scope.

#[local] Abbreviation Model := (ConveyorModel Payload).
#[local] Abbreviation Meth := (M Payload).

(** [sorted(checkpoints, key=lambda p: p[1])]: a stable sort, here by
    insertion. *)
Fixpoint insert_by_pos (c : CheckpointId * Q) (l : list (CheckpointId * Q))
  : list (CheckpointId * Q) :=
  match l with
  | [] => [c]
  | c' :: l' =>
      if Qlt_bool (snd c) (snd c') then c :: l else c' :: insert_by_pos c l'
  end.

Definition sorted_by_pos (l : list (CheckpointId * Q))
  : list (CheckpointId * Q) :=
  foldr insert_by_pos [] l.

(** [checkpoints[i][1] < checkpoints[i+1][1]] for every adjacent pair. *)
Fixpoint strictly_increasing (l : list (CheckpointId * Q)) : bool :=
  match l with
  | c :: ((c' :: _) as l') => Qlt_bool (snd c) (snd c') && strictly_increasing l'
  | _ => true
  end.

(** [ConveyorModel.__init__]. *)
Definition __init__ (length0 max_speed0 : Q)
  (checkpoints0 : list (CheckpointId * Q)) (model_id0 : AgentId)
  : Outcome Payload Model :=
  if negb (Qlt_bool 0 length0) then
    Raise (AssertionError "Conveyor length <= 0!")
  else if negb (Qlt_bool 0 max_speed0) then
    Raise (AssertionError "Conveyor max speed <= 0!")
  else
    let cps := sorted_by_pos checkpoints0 in
    let built :=
      Ok (mkModel model_id0 cps
            (foldl (fun d c => <[fst c := snd c]> d) ∅ cps)
            length0 max_speed0 pristine 0 0 ∅ []) in
    match head cps, last cps with
    | Some c0, Some cn =>
        if negb (Qle_bool 0 (snd c0)) then
          Raise (AssertionError "Checkpoints with position < 0!")
        else if negb (Qlt_bool (snd cn) length0) then
          Raise (AssertionError "Checkpoint with position >= conveyor length!")
        else if negb (strictly_increasing cps) then
          Raise (AssertionError "Checkpoints with equal positions!")
        else built
    | _, _ => built
    end.

(** [_stateTransfer]: the [KeyError] of the table lookup becomes an
    [AutomataException]; the state is assigned only when the key exists. *)
Definition _stateTransfer (action : Action) : Meth unit :=
  self <- get ;;
  match _model_automata (_state self) action with
  | Some s => modify (set_state s)
  | None => raise (AutomataException action (_state self))
  end.

Definition conv_end : string := "conv_end".

(** [checkpointPos]: [cp[0] == 'conv_end'] is tested before the table is
    read; a missing key of the table is a [KeyError]. *)
Definition checkpointPos (cp : CheckpointId) : Meth Q :=
  self <- get ;;
  if String.eqb (fst cp) conv_end then ret (length self)
  else match checkpoint_positions self !! cp with
       | Some p => ret p
       | None => raise KeyError
       end.

(** [nearestObject]. *)
Definition nearestObject (pos : Q) : Meth (Payload * Q) :=
  self <- get ;;
  found <- lift (search_pos (object_positions self) pos) ;;
  match objects self !! fst (fst found) with
  | Some o => ret (o, snd (fst found))
  | None => raise KeyError
  end.

Definition working : Meth bool :=
  self <- get ;; ret (Qlt_bool 0 (speed self)).

(** [setSpeed]. *)
Definition setSpeed (v : Q) : Meth unit :=
  self <- get ;;
  assert_ (Qle_bool 0 v && Qle_bool v (max_speed self))
    "Speed is not in [0, max_speed]!" ;;
  if negb (Qeq_bool (speed self) v) then
    _stateTransfer change ;;
    modify (set_speed v)
  else ret tt.

(** [list.insert(i, x)] for [0 <= i]. *)
Definition list_insert_at {X} (i : nat) (x : X) (l : list X) : list X :=
  take i l ++ x :: drop i l.

(** [putObject]. *)
Definition putObject (obj_id : ObjectId) (obj : Payload) (pos : Q)
  : Meth unit :=
  self <- get ;;
  assert_ (bool_decide (objects self !! obj_id = None))
    "Clashing object ID!" ;;
  let pos := round5 pos in
  n_idx <-
    (if bool_decide (0 < size (objects self))%nat then
       found <- lift (search_pos (object_positions self) pos) ;;
       let '((n_obj_id, n_pos), n_idx) := found in
       if Qeq_bool n_pos pos then
         match objects self !! n_obj_id with
         | Some other =>
             raise (CollisionException obj other pos (model_id self))
         | None => raise KeyError
         end
       else if Qlt_bool n_pos pos then ret (S n_idx)
       else ret n_idx
     else ret 0%nat) ;;
  modify (fun m => set_objects (<[obj_id := obj]> (objects m)) m) ;;
  modify (fun m =>
    set_object_positions
      (list_insert_at n_idx (obj_id, pos) (object_positions m)) m) ;;
  _stateTransfer change.

(** [removeObject]: the loop finds the first index holding [obj_id];
    [list.pop(None)] raises [TypeError], [dict.pop] of a missing key
    [KeyError]. *)
Definition removeObject (obj_id : ObjectId) : Meth Payload :=
  self <- get ;;
  match list_find (fun e : ObjectId * Q => fst e = obj_id)
          (object_positions self) with
  | None => raise TypeError
  | Some (pos_idx, _) =>
      modify (fun m =>
        set_object_positions (delete pos_idx (object_positions m)) m) ;;
      match objects self !! obj_id with
      | None => raise KeyError
      | Some obj =>
          modify (fun m => set_objects (delete obj_id (objects m)) m) ;;
          _stateTransfer change ;;
          ret obj
      end
  end.

(** One of the two [while] loops of [skipTime], read from the end it pops:
    while the list is not empty and its first entry is [out], that entry is
    popped and its identifier is popped from [objects].  The entry is gone
    from the list before [dict.pop] can raise. *)
Fixpoint pop_while (out : Q -> bool) (ps : list (ObjectId * Q))
  (objs : gmap ObjectId Payload)
  : Outcome Payload unit * list (ObjectId * Q) * gmap ObjectId Payload :=
  match ps with
  | [] => (Ok tt, [], objs)
  | (obj_id, p) :: ps' =>
      if out p then
        match objs !! obj_id with
        | Some _ => pop_while out ps' (delete obj_id objs)
        | None => (Raise KeyError, ps', objs)
        end
      else (Ok tt, ps, objs)
  end.

(** The loop on [object_positions[0][1] < 0], with [pop(0)]. *)
Definition clean_low : Meth unit :=
  fun m =>
    let '(r, ps, objs) :=
      pop_while (fun p => Qlt_bool p 0) (object_positions m) (objects m) in
    (r, set_objects objs (set_object_positions ps m)).

(** The loop on [object_positions[-1][1] > self.length], with [pop()]: the
    same loop on the reversed list. *)
Definition clean_high : Meth unit :=
  fun m =>
    let '(r, ps, objs) :=
      pop_while (fun p => Qlt_bool (length m) p)
        (reverse (object_positions m)) (objects m) in
    (r, set_objects objs (set_object_positions (reverse ps) m)).

(** The [for] loop of [skipTime]: every entry is overwritten in place. *)
Definition displace (d : Q) (ps : list (ObjectId * Q))
  : list (ObjectId * Q) :=
  map (fun e => (fst e, round5 (snd e + d))) ps.

(** [skipTime].  The literal [0] is returned when [time == 0]. *)
Definition skipTime (time : Q) (clean_ends : bool) : Meth Q :=
  if Qeq_bool time 0 then ret 0%Q
  else
    self <- get ;;
    let d := time * speed self in
    modify (fun m =>
      set_object_positions (displace d (object_positions m)) m) ;;
    (if clean_ends then clean_low ;; clean_high else ret tt) ;;
    _stateTransfer change ;;
    ret d.

(** [resume]. *)
Definition resume (time : Q) : Meth unit :=
  _stateTransfer resume_ ;;
  modify (set_resume_time time).

(** [pause]. *)
Definition pause (time : Q) : Meth unit :=
  _stateTransfer pause_ ;;
  self <- get ;;
  let time_diff := time - _resume_time self in
  assert_ (Qle_bool 0 time_diff) "Pause before resume??" ;;
  skipTime time_diff true ;;
  ret tt.

Definition startResolving : Meth unit := _stateTransfer start_resolving.

Definition endResolving : Meth unit := _stateTransfer end_resolving.

Definition is_dirty : Meth bool :=
  self <- get ;; ret (bool_decide (_state self = dirty)).

Definition is_resolving : Meth bool :=
  self <- get ;; ret (bool_decide (_state self = resolving)).

End Methods.

(** ** Calls as data, and the invariants of the data model *)

Section Calls.

Context {Payload : Type}.

#[local] Abbreviation Model := (ConveyorModel Payload).

(** A call of a public method with its arguments. *)
Inductive Op : Type :=
  | OSetSpeed (v : Q)
  | OPutObject (obj_id : ObjectId) (obj : Payload) (pos : Q)
  | ORemoveObject (obj_id : ObjectId)
  | OSkipTime (time : Q) (clean_ends : bool)
  | OResume (time : Q)
  | OPause (time : Q)
  | OStartResolving
  | OEndResolving
  | OCheckpointPos (cp : CheckpointId)
  | ONearestObject (pos : Q)
  | OWorking
  | ODirty
  | OResolving.

(** What a call returns. *)
Inductive Value : Type :=
  | VNone
  | VNum (q : Q)
  | VObj (o : Payload)
  | VObjPos (o : Payload) (p : Q)
  | VBool (b : bool).

Definition run (op : Op) : M Payload Value :=
  match op with
  | OSetSpeed v => setSpeed v ;; ret VNone
  | OPutObject obj_id obj pos => putObject obj_id obj pos ;; ret VNone
  | ORemoveObject obj_id => o <- removeObject obj_id ;; ret (VObj o)
  | OSkipTime t ce => d <- skipTime t ce ;; ret (VNum d)
  | OResume t => resume t ;; ret VNone
  | OPause t => pause t ;; ret VNone
  | OStartResolving => startResolving ;; ret VNone
  | OEndResolving => endResolving ;; ret VNone
  | OCheckpointPos cp => p <- checkpointPos cp ;; ret (VNum p)
  | ONearestObject pos => r <- nearestObject pos ;; ret (VObjPos r.1 r.2)
  | OWorking => b <- working ;; ret (VBool b)
  | ODirty => b <- is_dirty ;; ret (VBool b)
  | OResolving => b <- is_resolving ;; ret (VBool b)
  end.

(** The calls that displace the stored positions. *)
Definition displaces (op : Op) : bool :=
  match op with
  | OSkipTime _ _ | OPause _ => true
  | _ => false
  end.

Definition is_put (op : Op) : bool :=
  match op with
  | OPutObject _ _ _ => true
  | _ => false
  end.

(** The failures that are raised after the method has already assigned to
    [self]: [_stateTransfer('change')] is the last statement of
    [putObject], [removeObject] and [skipTime] (whose [dict.pop] can fail
    too, after [list.pop]); [pause] asserts and skips time after its own
    transition. *)
Definition raised_after_assignment (op : Op) (e : Exn Payload) : bool :=
  match op, e with
  | OPutObject _ _ _, AutomataException _ _ => true
  | ORemoveObject _, (AutomataException _ _ | KeyError) => true
  | OSkipTime _ _, (AutomataException _ _ | KeyError) => true
  | OPause _, (AssertionError _ | KeyError) => true
  | _, _ => false
  end.

Definition ids (m : Model) : list ObjectId := (object_positions m).*1.

(** Every identifier of [object_positions] has exactly one entry there and
    one in [objects], and vice versa. *)
Definition ids_consistent (m : Model) : Prop :=
  NoDup (ids m) ∧ dom (objects m) = (list_to_set (ids m) : gset ObjectId).

Definition pos_le (a b : ObjectId * Q) : Prop := (a.2 <= b.2)%Q.
Definition pos_lt (a b : ObjectId * Q) : Prop := (a.2 < b.2)%Q.

(** Sorted ascending by position. *)
Definition sorted_positions (m : Model) : Prop :=
  StronglySorted pos_le (object_positions m).

(** Sorted ascending with no two entries at the same position. *)
Definition distinct_positions (m : Model) : Prop :=
  StronglySorted pos_lt (object_positions m).

Definition all_rounded (m : Model) : Prop :=
  Forall (fun e : ObjectId * Q => rounded e.2) (object_positions m).

Definition in_range (m : Model) : Prop :=
  Forall (fun e : ObjectId * Q => (0 <= e.2 /\ e.2 <= length m)%Q)
    (object_positions m).

(** The model after the two assignments of [putObject]. *)
Definition placed (obj_id : ObjectId) (obj : Payload) (x : Q) (n : nat)
  (m : Model) : Model :=
  set_object_positions (list_insert_at n (obj_id, x) (object_positions m))
    (set_objects (<[obj_id := obj]> (objects m)) m).

(** The list without its longest prefix of positions that are [out]. *)
Fixpoint drop_while (out : Q -> bool) (ps : list (ObjectId * Q))
  : list (ObjectId * Q) :=
  match ps with
  | [] => []
  | e :: ps' => if out e.2 then drop_while out ps' else ps
  end.

(** What the two loops of [skipTime] leave of a list of positions: the
    entries below 0 are dropped from the front, then the entries above the
    length from the back. *)
Definition kept (len : Q) (ps : list (ObjectId * Q)) : list (ObjectId * Q) :=
  reverse (drop_while (fun p => Qlt_bool len p)
             (reverse (drop_while (fun p => Qlt_bool p 0) ps))).

(** The models the public interface can produce: what [__init__] builds,
    and what a call leaves behind, whether it returns or raises. *)
Inductive reachable : Model -> Prop :=
  | reach_init len ms cps mid m :
      __init__ len ms cps mid = Ok m -> reachable m
  | reach_call m op r m' :
      reachable m -> run op m = (r, m') -> reachable m'.

End Calls.

Arguments Op : clear implicits.
Arguments Value : clear implicits.

(** The invariants can be decided on a given model. *)

#[global] Instance Q_eq_dec : EqDecision Q.
Proof. solve_decision. Defined.

#[global] Instance Qeq_decision (x y : Q) : Decision (x == y)%Q :=
  Qeq_dec x y.

#[global] Instance Qle_dec (x y : Q) : Decision (x <= y)%Q.
Proof.
  destruct (Qle_bool x y) eqn:E.
  - left. apply Qle_bool_iff, E.
  - right. intros H. apply Qle_bool_iff in H. congruence.
Defined.

#[global] Instance Qlt_dec (x y : Q) : Decision (x < y)%Q.
Proof.
  destruct (Qlt_le_dec x y) as [H|H].
  - left. exact H.
  - right. apply Qle_not_lt, H.
Defined.

#[global] Instance pos_le_dec (a b : ObjectId * Q) : Decision (pos_le a b).
Proof. unfold pos_le. apply _. Defined.

#[global] Instance pos_lt_dec (a b : ObjectId * Q) : Decision (pos_lt a b).
Proof. unfold pos_lt. apply _. Defined.

#[global] Instance rounded_dec (p : Q) : Decision (rounded p).
Proof. unfold rounded. apply _. Defined.

#[global] Instance ids_consistent_dec {Payload} (m : ConveyorModel Payload) :
  Decision (ids_consistent m).
Proof. unfold ids_consistent. apply _. Defined.

#[global] Instance sorted_positions_dec {Payload}
  (m : ConveyorModel Payload) : Decision (sorted_positions m).
Proof. unfold sorted_positions. apply _. Defined.

#[global] Instance distinct_positions_dec {Payload}
  (m : ConveyorModel Payload) : Decision (distinct_positions m).
Proof. unfold distinct_positions. apply _. Defined.

#[global] Instance all_rounded_dec {Payload} (m : ConveyorModel Payload) :
  Decision (all_rounded m).
Proof. unfold all_rounded. apply _. Defined.

#[global] Instance in_range_dec {Payload} (m : ConveyorModel Payload) :
  Decision (in_range m).
Proof. unfold in_range. apply _. Defined.

(** ** Sample models *)

Module Samples.

(** [ConveyorModel(1, 1, [])]. *)
Definition fresh : ConveyorModel string :=
  mkModel ("world"%string, 0) [] ∅ 1 1 pristine 0 0 ∅ [].

(** [fresh] after [resume(0)]. *)
Definition fresh_moving : ConveyorModel string :=
  mkModel ("world"%string, 0) [] ∅ 1 1 moving 0 0 ∅ [].

(** [fresh] after [setSpeed(1)], [putObject(1, 'a', 0)] and
    [putObject(2, 'b', 0.00001)]. *)
Definition two_close : ConveyorModel string :=
  mkModel ("world"%string, 0) [] ∅ 1 1 dirty 0 1
    (<[2 := "b"%string]> (<[1 := "a"%string]> ∅))
    [(1, (0 # 100000)%Q); (2, (1 # 100000)%Q)].

(** [two_close] after [startResolving()] and [endResolving()]. *)
Definition two_resolved : ConveyorModel string := set_state resolved two_close.

(** [two_resolved] after [resume(0)]. *)
Definition two_moving : ConveyorModel string := set_state moving two_close.

(** [fresh] after [putObject(1, 'a', -1)]. *)
Definition one_below : ConveyorModel string :=
  mkModel ("world"%string, 0) [] ∅ 1 1 dirty 0 0
    (<[1 := "a"%string]> ∅) [(1, ((-100000) # 100000)%Q)].

(** [fresh] after [putObject(1, 'a', 0.5)]. *)
Definition one_inside : ConveyorModel string :=
  mkModel ("world"%string, 0) [] ∅ 1 1 dirty 0 0
    (<[1 := "a"%string]> ∅) [(1, (50000 # 100000)%Q)].

(** [ConveyorModel(10, 1, [(('conv_end', 5), 3)])]: a stored checkpoint
    whose identifier starts with ['conv_end']. *)
Definition shadowed : ConveyorModel string :=
  mkModel ("world"%string, 0) [(("conv_end"%string, 5), 3%Q)]
    (<[("conv_end"%string, 5) := 3%Q]> ∅) 10 1 pristine 0 0 ∅ [].

End Samples.

(** ** The event horizon: [nextEvents] and [immediateEvents] *)

Section Events.

Context {Payload : Type}.

#[local] Abbreviation Model := (ConveyorModel Payload).

Local Open Scope Q_scope.

(** An event [(payload, checkpoint, time)]. *)
Definition Event : Type := (Payload * CheckpointId * Q)%type.

(** The identifier of the end of the segment, [('conv_end', -1)]. *)
Definition end_of_conveyor : CheckpointId := (conv_end, (-1)%Z).

(** Modelled from the spec: [def_list] of [dqnroute.utils] is not part of
    the sources.  A filter that is not given stands for the default list
    (all objects, all checkpoints). *)
Definition def_list {X} (ls : option (list X)) (default : list X) : list X :=
  match ls with
  | Some l => l
  | None => default
  end.

(** [_skip_cond], on the checkpoint [c_points[cp_idx]] itself: the loop
    reads it only under its guard [cp_idx < len(c_points)]. *)
Definition _skip_cond (skip_immediate : bool) (cp : CheckpointId * Q)
  (pos : Q) : bool :=
  if skip_immediate then Qle_bool cp.2 pos else Qlt_bool cp.2 pos.

(** The [while] loop of [nextEvents], as the number of times it adds 1 to
    [cp_idx]: the length of the longest prefix of [c_points[cp_idx:]] on
    which [_skip_cond] holds. *)
Fixpoint skip_count (skip_immediate : bool) (pos : Q)
  (rest : list (CheckpointId * Q)) : nat :=
  match rest with
  | [] => 0
  | cp :: rest' =>
      if _skip_cond skip_immediate cp pos
      then S (skip_count skip_immediate pos rest')
      else 0
  end.

(** The [for] loop of [nextEvents], with the cursor [cp_idx] and the list
    [events] it appends to.  [self.objects[obj_id]] raises [KeyError] on a
    missing key. *)
Fixpoint events_loop (self : Model) (c_points : list (CheckpointId * Q))
  (skip_immediate : bool) (obj_positions : list (ObjectId * Q))
  (cp_idx : nat) (events : list Event) : Outcome Payload (list Event) :=
  match obj_positions with
  | [] => Ok events
  | (obj_id, pos) :: rest =>
      if negb (Qle_bool 0 pos && Qle_bool pos (length self)) then
        Raise (AssertionError
          "`nextEvents` on conveyor with undefined object positions!")
      else
        let cp_idx :=
          (cp_idx + skip_count skip_immediate pos (drop cp_idx c_points))%nat in
        match c_points !! cp_idx with
        | Some cp =>
            match objects self !! obj_id with
            | Some o =>
                events_loop self c_points skip_immediate rest cp_idx
                  (events ++ [(o, cp.1, (cp.2 - pos) / speed self)])
            | None => Raise KeyError
            end
        | None =>
            if negb skip_immediate || Qlt_bool pos (length self) then
              match objects self !! obj_id with
              | Some o =>
                  events_loop self c_points skip_immediate rest cp_idx
                    (events ++
                       [(o, end_of_conveyor, (length self - pos) / speed self)])
              | None => Raise KeyError
              end
            else events_loop self c_points skip_immediate rest cp_idx events
        end
  end.

(** [events.sort(key=lambda p: p[2])]: a stable sort, here by insertion
    before the first event that is not earlier. *)
Fixpoint insert_by_time (e : Event) (l : list Event) : list Event :=
  match l with
  | [] => [e]
  | e' :: l' =>
      if Qle_bool e.2 e'.2 then e :: l else e' :: insert_by_time e l'
  end.

Definition sorted_by_time (l : list Event) : list Event :=
  foldr insert_by_time [] l.

(** The objects and the checkpoints [nextEvents] works on. *)
Definition selected_objects (obj : option (list ObjectId)) (self : Model)
  : list (ObjectId * Q) :=
  let obj := def_list obj (map_to_list (objects self)).*1 in
  filter (fun e : ObjectId * Q => e.1 ∈ obj) (object_positions self).

Definition selected_checkpoints (cps : option (list CheckpointId))
  (self : Model) : list (CheckpointId * Q) :=
  let cps := def_list cps (map_to_list (checkpoint_positions self)).*1 in
  filter (fun c : CheckpointId * Q => c.1 ∈ cps) (checkpoints self).

(** [nextEvents]. *)
Definition nextEvents (obj : option (list ObjectId))
  (cps : option (list CheckpointId)) (skip_immediate : bool)
  : M Payload (list Event) :=
  self <- get ;;
  if Qeq_bool (speed self) 0 then ret []
  else
    let obj_positions := selected_objects obj self in
    let c_points := selected_checkpoints cps self in
    events <- lift (events_loop self c_points skip_immediate obj_positions
                      0%nat []) ;;
    ret (sorted_by_time events).

(** [immediateEvents]. *)
Definition immediateEvents (obj : option (list ObjectId))
  (cps : option (list CheckpointId)) : M Payload (list Event) :=
  events <- nextEvents obj cps false ;;
  ret (filter (fun ev : Event => ev.2 == 0) events).

(** The event of one object, found by a search of its own from the first
    checkpoint: the first checkpoint [_skip_cond] does not skip, or the end
    of the segment when there is none. *)
Definition event_for (self : Model) (c_points : list (CheckpointId * Q))
  (skip_immediate : bool) (o : Payload) (pos : Q) : option Event :=
  match list_find (fun cp => _skip_cond skip_immediate cp pos = false)
          c_points with
  | Some (_, cp) => Some (o, cp.1, (cp.2 - pos) / speed self)
  | None =>
      if negb skip_immediate || Qlt_bool pos (length self)
      then Some (o, end_of_conveyor, (length self - pos) / speed self)
      else None
  end.


(** What an event of [nextEvents] is made of: the payload of a selected
    object within [0, length], and either a selected checkpoint the object
    does not skip with the time to reach it, or the end of the segment. *)
Definition event_of (m : Model) (obj : option (list ObjectId))
  (cps : option (list CheckpointId)) (skip_immediate : bool) (ev : Event)
  : Prop :=
  exists obj_id pos,
    (obj_id, pos) ∈ selected_objects obj m /\
    0 <= pos /\ pos <= length m /\
    objects m !! obj_id = Some ev.1.1 /\
    ((exists cp, cp ∈ selected_checkpoints cps m /\
                 _skip_cond skip_immediate cp pos = false /\
                 ev.1.2 = cp.1 /\ ev.2 = (cp.2 - pos) / speed m) \/
     (ev.1.2 = end_of_conveyor /\
      (skip_immediate = false \/ pos < length m) /\
      ev.2 = (length m - pos) / speed m)).

End Events.

(** ** Sequences of calls *)

Section Traces.

Context {Payload : Type}.

#[local] Abbreviation Model := (ConveyorModel Payload).

(** The fields [__init__] calls constants. *)
Definition same_geometry (m m' : Model) : Prop :=
  model_id m' = model_id m /\
  checkpoints m' = checkpoints m /\
  checkpoint_positions m' = checkpoint_positions m /\
  length m' = length m /\
  max_speed m' = max_speed m.

(** The model after a sequence of calls, whatever each of them returned or
    raised. *)
Definition calls (ops : list (Op Payload)) (m : Model) : Model :=
  foldl (fun m op => (run op m).2) m ops.

(** Within [0, length]. *)
Definition on_segment (len : Q) (e : ObjectId * Q) : Prop :=
  (0 <= e.2 /\ e.2 <= len)%Q.

End Traces.

#[global] Instance on_segment_dec (len : Q) (e : ObjectId * Q) :
  Decision (on_segment len e).
Proof. unfold on_segment. apply _. Defined.

Module EventSamples.

(** [ConveyorModel(10, 1, [(('A', 0), 3), (('B', 0), 7)])] after
    [setSpeed(1)] and [putObject(1, 'X', 0)]. *)
Definition scenario : ConveyorModel string :=
  mkModel ("world"%string, 0)
    [(("A"%string, 0), 3%Q); (("B"%string, 0), 7%Q)]
    (<[("B"%string, 0) := 7%Q]> (<[("A"%string, 0) := 3%Q]> ∅))
    10 1 dirty 0 1 (<[1 := "X"%string]> ∅) [(1, (0 # 100000)%Q)].

(** [scenario] after [skipTime(3)]: the object sits on checkpoint A. *)
Definition scenario_at_A : ConveyorModel string :=
  mkModel ("world"%string, 0)
    [(("A"%string, 0), 3%Q); (("B"%string, 0), 7%Q)]
    (<[("B"%string, 0) := 7%Q]> (<[("A"%string, 0) := 3%Q]> ∅))
    10 1 dirty 0 1 (<[1 := "X"%string]> ∅) [(1, (300000 # 100000)%Q)].

(** [ConveyorModel(10, 1, [(('B', 0), 7), (('A', 0), 3)])]. *)
Definition two_checkpoints : ConveyorModel string :=
  mkModel ("world"%string, 0)
    [(("A"%string, 0), 3%Q); (("B"%string, 0), 7%Q)]
    (<[("B"%string, 0) := 7%Q]> (<[("A"%string, 0) := 3%Q]> ∅))
    10 1 pristine 0 0 ∅ [].

(** [two_close] as it is after a reconciliation and a pause at the resume
    time: [pristine], speed 1, objects at 0 and 0.00001. *)
Definition two_pristine : ConveyorModel string :=
  set_state pristine Samples.two_close.

End EventSamples.

(** Unfolding the combinators of the monad. *)
Ltac unfold_meth :=
  unfold bind, ret, raise, get, modify, assert_, lift in *.

(** ** Rounding and comparisons *)

Section NumFacts.

Local Open Scope Q_scope.

Lemma Qlt_bool_iff (x y : Q) : Qlt_bool x y = true <-> x < y.
Proof.
  unfold Qlt_bool. rewrite negb_true_iff.
  destruct (Qle_bool y x) eqn:E.
  - apply Qle_bool_iff in E. split; [discriminate|].
    intros H. exfalso. exact (Qlt_not_le _ _ H E).
  - split; [intros _|reflexivity].
    apply Qnot_le_lt. intros H. apply Qle_bool_iff in H. congruence.
Qed.

Lemma Qlt_bool_false (x y : Q) : Qlt_bool x y = false <-> y <= x.
Proof.
  unfold Qlt_bool. rewrite negb_false_iff. apply Qle_bool_iff.
Qed.

Lemma round_half_even_comp (x y : Q) :
  x == y -> round_half_even x = round_half_even y.
Proof.
  intros E. unfold round_half_even.
  rewrite (Qfloor_comp _ _ E).
  assert (E' : x - inject_Z (Qfloor y) == y - inject_Z (Qfloor y))
    by (rewrite E; reflexivity).
  rewrite (Qcompare_comp _ _ E' _ _ (Qeq_refl (1 # 2))). reflexivity.
Qed.

Lemma round_half_even_bounds (x : Q) :
  (Qfloor x <= round_half_even x <= Qfloor x + 1)%Z.
Proof.
  unfold round_half_even.
  destruct (x - inject_Z (Qfloor x) ?= 1 # 2); [destruct (Z.even _)| |]; lia.
Qed.

Lemma round_half_even_Z (k : Z) : round_half_even (inject_Z k) = k.
Proof.
  unfold round_half_even. rewrite Qfloor_Z.
  assert (E : inject_Z k - inject_Z k == 0) by ring.
  rewrite (Qcompare_comp _ _ E _ _ (Qeq_refl (1 # 2))). reflexivity.
Qed.

Lemma round_half_even_mono (x y : Q) :
  x <= y -> (round_half_even x <= round_half_even y)%Z.
Proof.
  intros L.
  pose proof (Qfloor_resp_le _ _ L) as F.
  pose proof (round_half_even_bounds x) as Bx.
  pose proof (round_half_even_bounds y) as By.
  destruct (Z.eq_dec (Qfloor x) (Qfloor y)) as [E|NE]; [|lia].
  clear F Bx By. unfold round_half_even. rewrite <- E.
  assert (R : x - inject_Z (Qfloor x) <= y - inject_Z (Qfloor x)).
  { apply Qplus_le_l with (z := inject_Z (Qfloor x)). ring_simplify. exact L. }
  destruct (Qcompare_spec (x - inject_Z (Qfloor x)) (1 # 2)) as [Hx|Hx|Hx];
    destruct (Qcompare_spec (y - inject_Z (Qfloor x)) (1 # 2)) as [Hy|Hy|Hy];
    try destruct (Z.even (Qfloor x)); try lia; exfalso; lra.
Qed.

Lemma round5_comp (x y : Q) : x == y -> round5 x = round5 y.
Proof.
  intros E. unfold round5. f_equal.
  apply round_half_even_comp. rewrite E. reflexivity.
Qed.

Lemma round5_mono (x y : Q) : x <= y -> round5 x <= round5 y.
Proof.
  intros L. unfold round5, Qle. cbn [Qnum Qden].
  apply Z.mul_le_mono_nonneg_r; [apply Pos2Z.is_nonneg|].
  apply round_half_even_mono.
  apply Qmult_le_compat_r; [exact L|]. discriminate.
Qed.

Lemma round5_idem (x : Q) : round5 (round5 x) = round5 x.
Proof.
  unfold round5. generalize (round_half_even (x * inject_Z scale)).
  intros k. f_equal.
  transitivity (round_half_even (inject_Z k)); [|apply round_half_even_Z].
  apply round_half_even_comp.
  change (Z.to_pos scale) with 100000%positive.
  change scale with 100000%Z.
  unfold Qeq, Qmult, inject_Z. cbn [Qnum Qden]. lia.
Qed.

Lemma round5_rounded (x : Q) : rounded (round5 x).
Proof. apply round5_idem. Qed.

Lemma round5_plus_zero (p d : Q) : rounded p -> d == 0 -> round5 (p + d) = p.
Proof.
  intros R E. transitivity (round5 p); [|exact R].
  apply round5_comp. lra.
Qed.

End NumFacts.

(** ** Lists of positions *)

Section ListFacts.

Context {Payload : Type}.

Local Open Scope Q_scope.

Lemma StronglySorted_sublist {X} (R : relation X) (l1 l2 : list X) :
  l1 `sublist_of` l2 -> StronglySorted R l2 -> StronglySorted R l1.
Proof.
  induction 1 as [|x l1 l2 Hs IH|x l1 l2 Hs IH]; intros S2.
  - constructor.
  - apply StronglySorted_cons in S2 as [F S2].
    apply StronglySorted_cons. split; [|auto].
    apply Forall_forall. intros y Hy.
    apply (proj1 (Forall_forall _ _) F). eapply elem_of_sublist; eauto.
  - apply StronglySorted_cons in S2 as [_ S2]. auto.
Qed.

Lemma sublist_fmap {X Y} (f : X -> Y) (l1 l2 : list X) :
  l1 `sublist_of` l2 -> f <$> l1 `sublist_of` f <$> l2.
Proof. induction 1; csimpl; constructor; assumption. Qed.

Lemma pos_lt_le_sorted (l : list (ObjectId * Q)) :
  StronglySorted pos_lt l -> StronglySorted pos_le l.
Proof.
  induction 1 as [|e l S IH F]; constructor; [exact IH|].
  eapply Forall_impl; [exact F|]. intros e'. unfold pos_lt, pos_le.
  apply Qlt_le_weak.
Qed.

Lemma drop_while_drop (out : Q -> bool) (ps : list (ObjectId * Q)) :
  exists n, drop_while out ps = drop n ps.
Proof.
  induction ps as [|e ps [n IH]]; [exists 0%nat; reflexivity|].
  cbn. destruct (out e.2); [exists (S n); exact IH|exists 0%nat; reflexivity].
Qed.

Lemma drop_while_sublist (out : Q -> bool) (ps : list (ObjectId * Q)) :
  drop_while out ps `sublist_of` ps.
Proof.
  destruct (drop_while_drop out ps) as [n ->]. apply sublist_drop.
Qed.

Lemma drop_while_id (out : Q -> bool) (ps : list (ObjectId * Q)) :
  Forall (fun e => out e.2 = false) ps -> drop_while out ps = ps.
Proof. destruct 1 as [|e ps H F]; cbn; [|rewrite H]; reflexivity. Qed.

Lemma kept_sublist (len : Q) (ps : list (ObjectId * Q)) :
  kept len ps `sublist_of` ps.
Proof.
  unfold kept.
  destruct (drop_while_drop (fun p => Qlt_bool len p)
              (reverse (drop_while (fun p => Qlt_bool p 0) ps))) as [n ->].
  rewrite drop_reverse, reverse_involutive.
  etransitivity; [apply sublist_take|apply drop_while_sublist].
Qed.

Lemma kept_id (len : Q) (ps : list (ObjectId * Q)) :
  Forall (fun e : ObjectId * Q => 0 <= e.2 /\ e.2 <= len) ps ->
  kept len ps = ps.
Proof.
  intros F. unfold kept.
  rewrite (drop_while_id (fun p => Qlt_bool p 0) ps).
  - rewrite drop_while_id; [apply reverse_involutive|].
    apply Forall_reverse. eapply Forall_impl; [exact F|].
    intros e [_ H]. apply Qlt_bool_false, H.
  - eapply Forall_impl; [exact F|].
    intros e [H _]. apply Qlt_bool_false, H.
Qed.

(** With consistent identifiers the loop never misses a key: it pops the
    prefix that is [out] from the list and its identifiers from the map. *)
Lemma pop_while_consistent (out : Q -> bool) (ps : list (ObjectId * Q))
  (objs : gmap ObjectId Payload) :
  NoDup ps.*1 ->
  dom objs = (list_to_set ps.*1 : gset ObjectId) ->
  exists objs',
    pop_while out ps objs = (Ok tt, drop_while out ps, objs') /\
    dom objs' = (list_to_set (drop_while out ps).*1 : gset ObjectId).
Proof.
  revert objs. induction ps as [|[obj_id p] ps IH]; intros objs ND Hdom.
  - exists objs. split; [reflexivity|exact Hdom].
  - cbn [pop_while drop_while fst snd]. destruct (out p).
    + cbn in ND. apply NoDup_cons in ND as [NI ND].
      destruct (objs !! obj_id) as [o|] eqn:L.
      * apply (IH (delete obj_id objs) ND).
        rewrite dom_delete_L, Hdom. cbn [fmap list_fmap fst list_to_set].
        apply set_eq. intros x.
        rewrite elem_of_difference, elem_of_union, elem_of_singleton,
          elem_of_list_to_set.
        split.
        -- intros [[Hx|Hx] Hne]; [contradiction|exact Hx].
        -- intros Hx. split; [right; exact Hx|]. intros ->. contradiction.
      * exfalso. apply not_elem_of_dom in L. apply L. rewrite Hdom.
        cbn [fmap list_fmap fst list_to_set].
        apply elem_of_union_l, elem_of_singleton. reflexivity.
    + exists objs. split; [reflexivity|exact Hdom].
Qed.

(** Whatever the map holds, the list the loop leaves is a suffix of the
    one it started from and the map only loses keys. *)
Lemma pop_while_sublist (out : Q -> bool) (ps : list (ObjectId * Q))
  (objs : gmap ObjectId Payload) :
  (pop_while out ps objs).1.2 `sublist_of` ps.
Proof.
  revert objs. induction ps as [|[obj_id p] ps IH]; intros objs.
  - reflexivity.
  - cbn [pop_while]. destruct (out p); [|reflexivity].
    destruct (objs !! obj_id).
    + apply sublist_cons, IH.
    + apply sublist_cons. reflexivity.
Qed.

Lemma sublist_reverse {X} (l1 l2 : list X) :
  l1 `sublist_of` l2 -> reverse l1 `sublist_of` reverse l2.
Proof.
  induction 1 as [|x l1 l2 Hs IH|x l1 l2 Hs IH]; rewrite ?reverse_cons.
  - reflexivity.
  - apply sublist_app; [exact IH|reflexivity].
  - apply sublist_inserts_r, IH.
Qed.

(** The loop fails with [KeyError] only. *)
Lemma pop_while_outcome (out : Q -> bool) (ps : list (ObjectId * Q))
  (objs : gmap ObjectId Payload) :
  (pop_while out ps objs).1.1 = Ok tt \/
  (pop_while out ps objs).1.1 = Raise KeyError.
Proof.
  revert objs. induction ps as [|[obj_id p] ps IH]; intros objs.
  - left. reflexivity.
  - cbn [pop_while]. destruct (out p); [|left; reflexivity].
    destruct (objs !! obj_id); [apply IH|right; reflexivity].
Qed.

(** Where nothing is [out] the loop pops nothing. *)
Lemma pop_while_id (out : Q -> bool) (ps : list (ObjectId * Q))
  (objs : gmap ObjectId Payload) :
  Forall (fun e => out e.2 = false) ps ->
  pop_while out ps objs = (Ok tt, ps, objs).
Proof.
  destruct 1 as [|[obj_id p] ps H F]; [reflexivity|].
  cbn in H. cbn [pop_while]. rewrite H. reflexivity.
Qed.

(** The entry [putObject] inserts is the first with its identifier, and
    popping it gives the list back. *)
Lemma list_find_inserted (ps : list (ObjectId * Q)) (n : nat)
  (obj_id : ObjectId) (x : Q) :
  obj_id ∉ ps.*1 ->
  exists i,
    list_find (fun e : ObjectId * Q => e.1 = obj_id)
      (list_insert_at n (obj_id, x) ps) = Some (i, (obj_id, x)) /\
    delete i (list_insert_at n (obj_id, x) ps) = ps.
Proof.
  intros Hni. exists (List.length (take n ps)). unfold list_insert_at. split.
  - apply list_find_Some. split; [|split].
    + apply list_lookup_middle. reflexivity.
    + reflexivity.
    + intros j y Hj Hlt Hy. apply Hni. rewrite lookup_app_l in Hj by exact Hlt.
      apply list_elem_of_lookup_2, elem_of_sublist with (l2 := ps) in Hj;
        [|apply sublist_take].
      rewrite <- Hy. apply list_elem_of_fmap_2, Hj.
  - rewrite delete_middle. apply take_drop.
Qed.

Lemma displace_zero (d : Q) (ps : list (ObjectId * Q)) :
  d == 0 -> Forall (fun e : ObjectId * Q => rounded e.2) ps ->
  displace d ps = ps.
Proof.
  intros Hd. induction 1 as [|[obj_id p] ps R F IH]; [reflexivity|].
  cbn [displace map fst snd]. cbn in R.
  rewrite (round5_plus_zero p d R Hd). f_equal. exact IH.
Qed.

Lemma displace_rounded (d : Q) (ps : list (ObjectId * Q)) :
  Forall (fun e : ObjectId * Q => rounded e.2) (displace d ps).
Proof.
  induction ps as [|e ps IH]; constructor; [apply round5_rounded|exact IH].
Qed.

(** Displacing and rounding keeps the order, not the gaps. *)
Lemma displace_sorted (d : Q) (ps : list (ObjectId * Q)) :
  StronglySorted pos_le ps -> StronglySorted pos_le (displace d ps).
Proof.
  apply (StronglySorted_fmap (fun e : ObjectId * Q => (e.1, round5 (e.2 + d)))).
  intros a b Hab. unfold pos_le in *. cbn. apply round5_mono. lra.
Qed.

(** *** The nearest entry *)

Lemma nearest_from_spec {A} (pos : Q) (ls pre : list (A * Q))
  (best : (A * Q) * nat) :
  pre !! best.2 = Some best.1 ->
  (forall e, e ∈ pre -> differs_from pos best.1 <= differs_from pos e) ->
  let r := nearest_from pos best (List.length pre) ls in
  (pre ++ ls) !! r.2 = Some r.1 /\
  forall e, e ∈ pre ++ ls -> differs_from pos r.1 <= differs_from pos e.
Proof.
  revert pre best.
  induction ls as [|e ls IH]; intros pre best Hb Hmin; cbn [nearest_from].
  - rewrite app_nil_r. split; assumption.
  - set (best' := if Qlt_bool (differs_from pos e) (differs_from pos best.1)
                  then (e, List.length pre) else best).
    specialize (IH (pre ++ [e]) best').
    rewrite length_app, Nat.add_1_r, <- app_assoc in IH. apply IH.
    + subst best'.
      destruct (Qlt_bool (differs_from pos e) (differs_from pos best.1)).
      * cbn. apply list_lookup_middle. reflexivity.
      * apply lookup_app_l_Some, Hb.
    + intros e' Hin. subst best'.
      destruct (Qlt_bool (differs_from pos e) (differs_from pos best.1))
        eqn:E; cbn [fst].
      * apply Qlt_bool_iff in E.
        apply elem_of_app in Hin as [Hin|Hin%list_elem_of_singleton].
        -- specialize (Hmin e' Hin). lra.
        -- subst e'. lra.
      * apply Qlt_bool_false in E.
        apply elem_of_app in Hin as [Hin|Hin%list_elem_of_singleton].
        -- apply Hmin, Hin.
        -- subst e'. exact E.
Qed.

(** On a list that is not empty the search returns an entry of the list,
    with its index, that is at least as close to [pos] as every entry. *)
Lemma search_pos_spec {A} (ls : list (A * Q)) (pos : Q) :
  ls <> [] ->
  exists e i,
    search_pos (Payload := Payload) ls pos = Ok (e, i) /\
    ls !! i = Some e /\
    forall e', e' ∈ ls -> differs_from pos e <= differs_from pos e'.
Proof.
  destruct ls as [|e0 ls]; [congruence|intros _].
  pose proof (nearest_from_spec pos ls [e0] (e0, 0%nat)) as H.
  cbn [List.length fst snd app] in H.
  destruct (nearest_from pos (e0, 0%nat) 1 ls) as [e i] eqn:E.
  exists e, i. cbn [search_pos]. rewrite E.
  destruct H as [H1 H2].
  - reflexivity.
  - intros e' ->%list_elem_of_singleton. apply Qle_refl.
  - auto.
Qed.

Lemma nearer_above (pos a b : Q) :
  Qabs (a - pos) <= Qabs (b - pos) -> a < pos -> a < b -> pos < b.
Proof.
  intros H La Lab. revert H.
  apply (Qabs_case (a - pos)); intros Ha; apply (Qabs_case (b - pos));
    intros Hb H; lra.
Qed.

Lemma nearer_below (pos a b : Q) :
  Qabs (a - pos) <= Qabs (b - pos) -> pos < a -> b < a -> b < pos.
Proof.
  intros H La Lab. revert H.
  apply (Qabs_case (a - pos)); intros Ha; apply (Qabs_case (b - pos));
    intros Hb H; lra.
Qed.

Lemma nearest_exact (pos a b : Q) :
  Qabs (a - pos) <= Qabs (b - pos) -> b == pos -> a == pos.
Proof.
  intros H E. revert H.
  apply (Qabs_case (a - pos)); intros Ha; apply (Qabs_case (b - pos));
    intros Hb H; lra.
Qed.

(** *** Sorted lists *)

Lemma sorted_lookup_lt (ls : list (ObjectId * Q)) (j k : nat)
  (a b : ObjectId * Q) :
  StronglySorted pos_lt ls ->
  ls !! j = Some a -> ls !! k = Some b -> (j < k)%nat -> a.2 < b.2.
Proof.
  intros S. revert j k. induction S as [|x l S IH F]; intros j k Hj Hk L.
  - discriminate.
  - destruct k as [|k]; [lia|]. destruct j as [|j].
    + cbn in Hj, Hk. injection Hj as <-.
      exact (Forall_lookup_1 _ _ _ _ F Hk).
    + cbn in Hj, Hk. apply (IH j k Hj Hk). lia.
Qed.

Lemma sorted_insert_between (l1 l2 : list (ObjectId * Q))
  (x : ObjectId * Q) :
  StronglySorted pos_lt (l1 ++ l2) ->
  Forall (fun a => a.2 < x.2) l1 ->
  Forall (fun b => x.2 < b.2) l2 ->
  StronglySorted pos_lt (l1 ++ x :: l2).
Proof.
  intros S F1 F2. apply StronglySorted_app in S as (C & S1 & S2).
  apply StronglySorted_app. split; [|split].
  - intros x1 x2 H1 [->|H2]%elem_of_cons.
    + exact (proj1 (Forall_forall _ _) F1 _ H1).
    + apply C; assumption.
  - exact S1.
  - apply StronglySorted_cons. split; [exact F2|exact S2].
Qed.

(** The insertion of [putObject]: next to the nearest entry, on the side
    the new position lies. *)
Lemma insert_nearest_sorted (ls : list (ObjectId * Q)) (pos : Q)
  (obj_id : ObjectId) (e : ObjectId * Q) (i : nat) :
  StronglySorted pos_lt ls ->
  ls !! i = Some e ->
  (forall e', e' ∈ ls -> differs_from pos e <= differs_from pos e') ->
  ~ e.2 == pos ->
  StronglySorted pos_lt
    (list_insert_at (if Qlt_bool e.2 pos then S i else i) (obj_id, pos) ls).
Proof.
  intros Hs Hi Hmin Hne. unfold list_insert_at.
  destruct (Qlt_bool e.2 pos) eqn:E.
  - apply Qlt_bool_iff in E.
    apply sorted_insert_between; [rewrite take_drop; exact Hs| |].
    + apply Forall_lookup. intros j a [Ha Hj]%lookup_take_Some. cbn.
      destruct (decide (j = i)) as [->|Hji].
      * rewrite Hi in Ha. injection Ha as <-. exact E.
      * assert (a.2 < e.2) by (apply (sorted_lookup_lt ls j i); auto; lia).
        lra.
    + apply Forall_lookup. intros j b Hb. rewrite lookup_drop in Hb. cbn.
      assert (e.2 < b.2)
        by (apply (sorted_lookup_lt ls i (S i + j)); auto; lia).
      apply (nearer_above pos e.2 b.2); auto.
      apply Hmin. eapply list_elem_of_lookup_2, Hb.
  - apply Qlt_bool_false in E.
    assert (E' : pos < e.2).
    { destruct (proj1 (Qle_lteq _ _) E) as [H|H]; [exact H|].
      exfalso. apply Hne. symmetry. exact H. }
    apply sorted_insert_between; [rewrite take_drop; exact Hs| |].
    + apply Forall_lookup. intros j a [Ha Hj]%lookup_take_Some. cbn.
      assert (a.2 < e.2) by (apply (sorted_lookup_lt ls j i); auto).
      apply (nearer_below pos e.2 a.2); auto.
      apply Hmin. eapply list_elem_of_lookup_2, Ha.
    + apply Forall_lookup. intros j b Hb. rewrite lookup_drop in Hb. cbn.
      destruct j as [|j].
      * rewrite Nat.add_0_r, Hi in Hb. injection Hb as <-. exact E'.
      * assert (e.2 < b.2)
          by (apply (sorted_lookup_lt ls i (i + S j)); auto; lia).
        lra.
Qed.

End ListFacts.

(** ** Executing the methods *)

Section Exec.

Context {Payload : Type}.

#[local] Abbreviation Model := (ConveyorModel Payload).

Local Open Scope Q_scope.

Lemma stateTransfer_eq (a : Action) (m : Model) :
  _stateTransfer a m =
  match _model_automata (_state m) a with
  | Some s => (Ok tt, set_state s m)
  | None => (Raise (AutomataException a (_state m)), m)
  end.
Proof.
  unfold _stateTransfer. unfold_meth.
  destruct (_model_automata (_state m) a); reflexivity.
Qed.

(** [skipTime] returns before it reads or assigns anything when the time
    is 0. *)
Lemma skipTime_zero (m : Model) (t : Q) (clean_ends : bool) :
  t == 0 -> skipTime t clean_ends m = (Ok 0, m).
Proof.
  intros E. unfold skipTime.
  apply Qeq_bool_iff in E. rewrite E. reflexivity.
Qed.

(** C8: [skipTime(0)] returns the literal 0 and leaves the whole model as
    it is (positions, object map, speed, automaton state), in every state
    of the automaton and for either value of [clean_ends]; [change] is not
    fired, so the call returns normally in [moving] too. *)
Theorem skipTime_zero_noop (m : Model) (t : Q) (clean_ends : bool) :
  t == 0 ->
  skipTime t clean_ends m = (Ok 0, m) /\
  run (OSkipTime t clean_ends) m = (Ok (VNum 0), m) /\
  (_state m = moving ->
   exists m', skipTime t clean_ends m = (Ok 0, m') /\ _state m' = moving /\
              object_positions m' = object_positions m /\
              objects m' = objects m /\ speed m' = speed m).
Proof.
  intros E. pose proof (skipTime_zero m t clean_ends E) as H.
  split; [exact H|]. split.
  - cbn [run]. unfold bind. rewrite H. reflexivity.
  - intros Hst. exists m. repeat split; assumption.
Qed.

(** C9: an identifier whose first component is ['conv_end'] gets the length
    of the segment, whatever its second component and whatever the table
    of stored checkpoints holds, also when the table has an entry for that
    very identifier; the model is left as it is. *)
Theorem checkpointPos_conv_end (m : Model) (n : Z)
  (table : gmap CheckpointId Q) :
  checkpointPos (conv_end, n) m = (Ok (length m), m) /\
  (let m' := mkModel (model_id m) (checkpoints m) table (length m)
               (max_speed m) (_state m) (_resume_time m) (speed m)
               (objects m) (object_positions m) in
   checkpointPos (conv_end, n) m' = (Ok (length m), m')).
Proof. split; reflexivity. Qed.

(** *** The loops of [skipTime] *)

Lemma displace_ids (d : Q) (ps : list (ObjectId * Q)) :
  (displace d ps).*1 = ps.*1.
Proof.
  induction ps as [|e ps IH]; [reflexivity|].
  change ((e.1 :: (displace d ps).*1) = e.1 :: ps.*1). f_equal. exact IH.
Qed.

Lemma clean_low_exec (m : Model) :
  ids_consistent m ->
  exists objs',
    clean_low m =
      (Ok tt,
       set_objects objs'
         (set_object_positions
            (drop_while (fun p => Qlt_bool p 0) (object_positions m)) m)) /\
    dom objs' =
      (list_to_set (drop_while (fun p => Qlt_bool p 0)
                      (object_positions m)).*1 : gset ObjectId).
Proof.
  intros [ND HD]. unfold clean_low.
  destruct (pop_while_consistent (fun p => Qlt_bool p 0)
              (object_positions m) (objects m) ND HD) as (objs' & -> & HD').
  exists objs'. split; [reflexivity|exact HD'].
Qed.

Lemma clean_high_exec (m : Model) :
  ids_consistent m ->
  exists objs',
    clean_high m =
      (Ok tt,
       set_objects objs'
         (set_object_positions
            (reverse (drop_while (fun p => Qlt_bool (length m) p)
                        (reverse (object_positions m)))) m)) /\
    dom objs' =
      (list_to_set
         (reverse (drop_while (fun p => Qlt_bool (length m) p)
                     (reverse (object_positions m)))).*1 : gset ObjectId).
Proof.
  intros [ND HD]. unfold clean_high.
  destruct (pop_while_consistent (fun p => Qlt_bool (length m) p)
              (reverse (object_positions m)) (objects m))
    as (objs' & -> & HD').
  - rewrite fmap_reverse, reverse_Permutation. exact ND.
  - rewrite HD, fmap_reverse. apply set_eq. intros x.
    rewrite !elem_of_list_to_set, elem_of_reverse. reflexivity.
  - exists objs'. split; [reflexivity|].
    rewrite HD', !fmap_reverse. apply set_eq. intros x.
    rewrite !elem_of_list_to_set, elem_of_reverse. reflexivity.
Qed.

(** What [skipTime] does on a model with consistent identifiers when the
    time is not 0: the positions are displaced and cleaned, then [change]
    is fired, last. *)
Lemma skipTime_exec (m : Model) (t : Q) (clean_ends : bool) :
  ids_consistent m ->
  ~ t == 0 ->
  exists objs',
    let ps' :=
      if clean_ends
      then kept (length m) (displace (t * speed m) (object_positions m))
      else displace (t * speed m) (object_positions m) in
    let m1 := set_objects objs' (set_object_positions ps' m) in
    ids_consistent m1 /\
    skipTime t clean_ends m =
      match _model_automata (_state m) change with
      | Some s => (Ok (t * speed m), set_state s m1)
      | None => (Raise (AutomataException change (_state m)), m1)
      end.
Proof.
  intros [ND HD] Ht. unfold skipTime.
  destruct (Qeq_bool t 0) eqn:E; [apply Qeq_bool_iff in E; contradiction|].
  set (d := t * speed m).
  set (m0 := set_object_positions (displace d (object_positions m)) m).
  assert (C0 : ids_consistent m0).
  { unfold ids_consistent, ids, m0, set_object_positions.
    cbn [object_positions objects]. rewrite displace_ids. split; assumption. }
  destruct clean_ends.
  - destruct (clean_low_exec m0 C0) as (o1 & E1 & D1).
    set (m1 := set_objects o1 (set_object_positions
                 (drop_while (fun p => Qlt_bool p 0) (object_positions m0))
                 m0)) in *.
    assert (C1 : ids_consistent m1).
    { split; [|exact D1]. eapply sublist_NoDup; [apply C0|].
      apply sublist_fmap, drop_while_sublist. }
    destruct (clean_high_exec m1 C1) as (o2 & E2 & D2).
    exists o2. cbn zeta. split.
    + split; [|exact D2].
      eapply sublist_NoDup; [exact ND|].
      unfold ids. rewrite <- (displace_ids d (object_positions m)).
      apply sublist_fmap, kept_sublist.
    + unfold_meth. fold d. fold m0. rewrite E1, E2, stateTransfer_eq. cbn.
      destruct (_model_automata (_state m) change); reflexivity.
  - exists (objects m). cbn zeta. split; [exact C0|].
    unfold_meth. fold d. fold m0. rewrite stateTransfer_eq. cbn.
    destruct (_model_automata (_state m) change); destruct m; reflexivity.
Qed.

(** The shape of [skipTime] on any model when the time is not 0: the loops
    leave a sublist of the displaced positions and can only fail with
    [KeyError]; [change] is fired after them. *)
Lemma skipTime_shape (m : Model) (t : Q) (clean_ends : bool) :
  ~ t == 0 ->
  exists (r0 : Outcome Payload unit) ps' objs',
    (r0 = Ok tt \/ r0 = Raise KeyError) /\
    ps' `sublist_of` displace (t * speed m) (object_positions m) /\
    let m1 := set_objects objs' (set_object_positions ps' m) in
    skipTime t clean_ends m =
      match r0 with
      | Raise e => (Raise e, m1)
      | Ok _ =>
          match _model_automata (_state m) change with
          | Some s => (Ok (t * speed m), set_state s m1)
          | None => (Raise (AutomataException change (_state m)), m1)
          end
      end.
Proof.
  intros Ht. unfold skipTime.
  destruct (Qeq_bool t 0) eqn:E; [apply Qeq_bool_iff in E; contradiction|].
  set (d := t * speed m). set (ps0 := displace d (object_positions m)).
  destruct clean_ends.
  - pose proof (pop_while_outcome (fun p => Qlt_bool p 0) ps0 (objects m))
      as O1.
    pose proof (pop_while_sublist (fun p => Qlt_bool p 0) ps0 (objects m))
      as S1.
    destruct (pop_while (fun p => Qlt_bool p 0) ps0 (objects m))
      as [[r1 ps1] o1] eqn:E1. cbn [fst snd] in O1, S1.
    pose proof (pop_while_outcome (fun p => Qlt_bool (length m) p)
                  (reverse ps1) o1) as O2.
    pose proof (pop_while_sublist (fun p => Qlt_bool (length m) p)
                  (reverse ps1) o1) as S2.
    destruct (pop_while (fun p => Qlt_bool (length m) p) (reverse ps1) o1)
      as [[r2 ps2] o2] eqn:E2. cbn [fst snd] in O2, S2.
    apply sublist_reverse in S2. rewrite reverse_involutive in S2.
    destruct O1 as [-> | ->].
    + exists r2, (reverse ps2), o2. split; [exact O2|].
      split; [etransitivity; eassumption|].
      unfold_meth. unfold clean_low, clean_high.
      cbn [object_positions objects set_object_positions set_objects length].
      fold d. fold ps0. rewrite E1.
      cbn [object_positions objects set_object_positions set_objects length].
      rewrite E2, stateTransfer_eq. cbn.
      destruct O2 as [-> | ->]; [|reflexivity].
      destruct (_model_automata (_state m) change); reflexivity.
    + exists (Raise KeyError), ps1, o1. split; [right; reflexivity|].
      split; [exact S1|].
      unfold_meth. unfold clean_low, clean_high.
      cbn [object_positions objects set_object_positions set_objects length].
      fold d. fold ps0. rewrite E1. reflexivity.
  - exists (Ok tt), ps0, (objects m). split; [left; reflexivity|].
    split; [reflexivity|].
    unfold_meth. fold d. fold ps0. rewrite stateTransfer_eq. cbn.
    destruct (_model_automata (_state m) change); destruct m; reflexivity.
Qed.

(** *** [putObject] and [removeObject] *)

Lemma consistent_lookup (m : Model) (e : ObjectId * Q) :
  ids_consistent m -> e ∈ object_positions m ->
  is_Some (objects m !! e.1).
Proof.
  intros [_ HD] He. apply elem_of_dom. rewrite HD.
  apply elem_of_list_to_set. unfold ids. apply list_elem_of_fmap_2, He.
Qed.

Lemma consistent_absent (m : Model) (obj_id : ObjectId) :
  ids_consistent m -> objects m !! obj_id = None -> obj_id ∉ ids m.
Proof.
  intros [_ HD] L Hin. apply not_elem_of_dom in L. apply L.
  rewrite HD. apply elem_of_list_to_set, Hin.
Qed.

(** What [putObject] does on a model with consistent identifiers for an
    identifier that is not present: either some entry is at the rounded
    position and the collision is raised before anything is assigned, or
    no entry is there, the object is stored next to the nearest entry, and
    [change] is fired last. *)
Lemma putObject_exec (m : Model) (obj_id : ObjectId) (obj : Payload)
  (pos : Q) :
  ids_consistent m ->
  objects m !! obj_id = None ->
  (exists e other,
     e ∈ object_positions m /\ e.2 == round5 pos /\
     objects m !! e.1 = Some other /\
     putObject obj_id obj pos m =
       (Raise (CollisionException obj other (round5 pos) (model_id m)), m))
  \/
  (Forall (fun e : ObjectId * Q => ~ e.2 == round5 pos)
     (object_positions m) /\
   exists n,
     (distinct_positions m ->
      StronglySorted pos_lt
        (list_insert_at n (obj_id, round5 pos) (object_positions m))) /\
     putObject obj_id obj pos m =
       match _model_automata (_state m) change with
       | Some s => (Ok tt, set_state s (placed obj_id obj (round5 pos) n m))
       | None => (Raise (AutomataException change (_state m)),
                  placed obj_id obj (round5 pos) n m)
       end).
Proof.
  intros C L. unfold putObject. unfold_meth.
  rewrite (bool_decide_eq_true_2 _ L). cbn iota.
  destruct (object_positions m) as [|e0 ps] eqn:Eps.
  - right. split; [constructor|]. exists 0%nat.
    split; [intros _; repeat constructor|].
    assert (Hs : size (objects m) = 0%nat).
    { apply map_size_empty_iff, dom_empty_iff_L.
      destruct C as [_ HD]. rewrite HD. unfold ids. rewrite Eps.
      reflexivity. }
    rewrite Hs. rewrite bool_decide_eq_false_2 by lia.
    unfold_meth. rewrite stateTransfer_eq. cbn. unfold placed. rewrite Eps.
    destruct (_model_automata (_state m) change); reflexivity.
  - assert (Hs : (0 < size (objects m))%nat).
    { destruct (consistent_lookup m e0 C) as [o Ho];
        [rewrite Eps; left|].
      destruct (decide (size (objects m) = 0%nat)) as [Z|]; [|lia].
      apply map_size_empty_iff in Z. rewrite Z in Ho. discriminate. }
    rewrite (bool_decide_eq_true_2 _ Hs).
    destruct (search_pos_spec (Payload := Payload) (e0 :: ps) (round5 pos))
      as (e & i & -> & Hi & Hmin); [discriminate|].
    rewrite <- Eps in *. destruct e as [n_obj_id n_pos]. cbn iota.
    destruct (Qeq_bool n_pos (round5 pos)) eqn:E.
    + left. apply Qeq_bool_iff in E.
      pose proof (list_elem_of_lookup_2 _ _ _ Hi) as Hin.
      destruct (consistent_lookup m _ C Hin) as [other Ho]. cbn in Ho.
      exists (n_obj_id, n_pos), other. rewrite Ho. auto.
    + right. apply Qeq_bool_neq in E. split.
      * apply Forall_forall. intros e' He' Heq. apply E.
        exact (nearest_exact _ _ _ (Hmin e' He') Heq).
      * exists (if Qlt_bool n_pos (round5 pos) then S i else i). split.
        -- intros Hs'.
           exact (insert_nearest_sorted _ _ obj_id (n_obj_id, n_pos) i
                    Hs' Hi Hmin E).
        -- destruct (Qlt_bool n_pos (round5 pos)); unfold_meth;
             rewrite stateTransfer_eq; cbn; unfold placed;
             destruct (_model_automata (_state m) change); reflexivity.
Qed.

(** [removeObject], statement by statement. *)
Lemma removeObject_eq (m : Model) (obj_id : ObjectId) :
  removeObject obj_id m =
  match list_find (fun e : ObjectId * Q => e.1 = obj_id)
          (object_positions m) with
  | None => (Raise TypeError, m)
  | Some (i, _) =>
      let m0 := set_object_positions (delete i (object_positions m)) m in
      match objects m !! obj_id with
      | None => (Raise KeyError, m0)
      | Some obj =>
          let m1 := set_objects (delete obj_id (objects m)) m0 in
          match _model_automata (_state m) change with
          | Some s => (Ok obj, set_state s m1)
          | None => (Raise (AutomataException change (_state m)), m1)
          end
      end
  end.
Proof.
  unfold removeObject. unfold_meth.
  destruct (list_find _ (object_positions m)) as [[i e]|]; [|reflexivity].
  destruct (objects m !! obj_id); [|reflexivity].
  rewrite stateTransfer_eq. cbn.
  destruct (_model_automata (_state m) change); reflexivity.
Qed.

(** [setSpeed], [resume] and [pause], statement by statement. *)
Lemma setSpeed_eq (m : Model) (v : Q) :
  setSpeed v m =
  if Qle_bool 0 v && Qle_bool v (max_speed m) then
    if negb (Qeq_bool (speed m) v) then
      match _model_automata (_state m) change with
      | Some s => (Ok tt, set_speed v (set_state s m))
      | None => (Raise (AutomataException change (_state m)), m)
      end
    else (Ok tt, m)
  else (Raise (AssertionError "Speed is not in [0, max_speed]!"), m).
Proof.
  unfold setSpeed. unfold_meth.
  destruct (Qle_bool 0 v && Qle_bool v (max_speed m)); [|reflexivity].
  unfold_meth. destruct (negb (Qeq_bool (speed m) v)); [|reflexivity].
  unfold_meth. rewrite stateTransfer_eq.
  destruct (_model_automata (_state m) change); reflexivity.
Qed.

Lemma resume_eq (m : Model) (t : Q) :
  resume t m =
  match _model_automata (_state m) resume_ with
  | Some s => (Ok tt, set_resume_time t (set_state s m))
  | None => (Raise (AutomataException resume_ (_state m)), m)
  end.
Proof.
  unfold resume. unfold_meth. rewrite stateTransfer_eq.
  destruct (_model_automata (_state m) resume_); reflexivity.
Qed.

Lemma pause_eq (m : Model) (t : Q) :
  pause t m =
  match _model_automata (_state m) pause_ with
  | Some s =>
      if Qle_bool 0 (t - _resume_time m) then
        let (o, m') := skipTime (t - _resume_time m) true (set_state s m) in
        match o with
        | Ok _ => (Ok tt, m')
        | Raise e => (Raise e, m')
        end
      else (Raise (AssertionError "Pause before resume??"), set_state s m)
  | None => (Raise (AutomataException pause_ (_state m)), m)
  end.
Proof.
  unfold pause. unfold_meth. rewrite stateTransfer_eq.
  destruct (_model_automata (_state m) pause_); [|reflexivity].
  cbn [_resume_time set_state].
  destruct (Qle_bool 0 (t - _resume_time m)); reflexivity.
Qed.

Lemma bind_eq {A B} (c : M Payload A) (k : A -> M Payload B) (m : Model) :
  bind c k m =
  match c m with
  | (Ok a, m') => k a m'
  | (Raise e, m') => (Raise e, m')
  end.
Proof. reflexivity. Qed.

Lemma consistent_find (m : Model) (obj_id : ObjectId) :
  ids_consistent m -> is_Some (objects m !! obj_id) ->
  is_Some (list_find (fun e : ObjectId * Q => e.1 = obj_id)
             (object_positions m)).
Proof.
  intros [_ HD] Hs. apply elem_of_dom in Hs. rewrite HD in Hs.
  apply elem_of_list_to_set in Hs. unfold ids in Hs.
  apply list_elem_of_fmap in Hs as (e & -> & He).
  destruct (list_find (fun e0 : ObjectId * Q => e0.1 = e.1)
              (object_positions m)) eqn:F; [eauto|].
  exfalso. apply list_find_None in F.
  exact (proj1 (Forall_forall _ _) F e He eq_refl).
Qed.

(** ** The lifecycle automaton and the operations *)

Lemma change_twice (s s' : State) :
  _model_automata s change = Some s' -> _model_automata s' change = Some s'.
Proof. destruct s; cbn; intros H; inversion H; reflexivity. Qed.

(** C2 (amended): a successful [pause(t)] in [moving] leaves the automaton
    in [pristine] when [t] equals the recorded resume time, and in [dirty]
    when it does not, because [skipTime] then fires [change] after the
    [pause] transition; with consistent identifiers and [t] at or after
    the resume time the call does succeed. *)
Theorem pause_settles (m : Model) (t : Q) :
  _state m = moving ->
  (forall r m', pause t m = (Ok r, m') ->
     (t == _resume_time m -> _state m' = pristine) /\
     (~ t == _resume_time m -> _state m' = dirty)) /\
  (ids_consistent m -> _resume_time m <= t ->
   exists m', pause t m = (Ok tt, m')).
Proof.
  intros Hst. unfold pause. unfold_meth.
  rewrite stateTransfer_eq, Hst. cbn.
  set (m1 := set_state pristine m).
  destruct (Qle_bool 0 (t - _resume_time m)) eqn:E; cbn.
  2:{ split; [intros r m' H; discriminate|].
      intros _ Hle. exfalso.
      assert (Qle_bool 0 (t - _resume_time m) = true)
        by (apply Qle_bool_iff; lra).
      congruence. }
  destruct (Qeq_dec (t - _resume_time m) 0) as [Z|NZ].
  - rewrite (skipTime_zero m1 _ true Z). split.
    + intros r m' H. injection H as <- <-. split; [reflexivity|].
      intros N. exfalso. apply N. lra.
    + eauto.
  - split.
    + intros r m' H.
      destruct (skipTime_shape m1 _ true NZ)
        as (r0 & ps' & objs' & Hr0 & _ & Heq).
      cbn zeta in Heq. rewrite Heq in H. clear Heq.
      destruct Hr0 as [-> | ->]; [|discriminate].
      cbn in H. injection H as <- <-. split; [|reflexivity].
      intros Z. exfalso. apply NZ. lra.
    + intros C _.
      destruct (skipTime_exec m1 _ true C NZ) as (objs' & _ & Heq).
      cbn zeta in Heq. rewrite Heq. cbn. eauto.
Qed.

(** C3 (amended): while the automaton is in [moving], a call that reaches
    its [change] fails with the protocol violation: [setSpeed] with a
    speed in range that differs from the current one, [putObject] of an
    absent identifier at a free position, [removeObject] of a present
    identifier and [skipTime] with a time other than 0. *)
Theorem moving_rejects_changes (m : Model) :
  _state m = moving ->
  (forall v, 0 <= v -> v <= max_speed m -> ~ speed m == v ->
     setSpeed v m = (Raise (AutomataException change moving), m)) /\
  (forall obj_id obj pos,
     ids_consistent m -> objects m !! obj_id = None ->
     Forall (fun e : ObjectId * Q => ~ e.2 == round5 pos)
       (object_positions m) ->
     (putObject obj_id obj pos m).1 =
       Raise (AutomataException change moving)) /\
  (forall obj_id,
     ids_consistent m -> is_Some (objects m !! obj_id) ->
     (removeObject obj_id m).1 = Raise (AutomataException change moving)) /\
  (forall t clean_ends,
     ids_consistent m -> ~ t == 0 ->
     (skipTime t clean_ends m).1 = Raise (AutomataException change moving)).
Proof.
  intros Hst. repeat split.
  - intros v H0 H1 Hne. unfold setSpeed. unfold_meth.
    apply Qle_bool_iff in H0, H1. rewrite H0, H1. cbn [andb].
    destruct (Qeq_bool (speed m) v) eqn:E;
      [apply Qeq_bool_iff in E; contradiction|].
    cbn [negb]. unfold_meth. rewrite stateTransfer_eq, Hst. reflexivity.
  - intros obj_id obj pos C L F.
    destruct (putObject_exec m obj_id obj pos C L)
      as [(e & other & He & Heq & _)|(_ & n & _ & ->)].
    + exfalso. exact (proj1 (Forall_forall _ _) F e He Heq).
    + rewrite Hst. reflexivity.
  - intros obj_id C Hs. rewrite removeObject_eq.
    destruct (consistent_find m obj_id C Hs) as [[i e] ->].
    destruct Hs as [obj ->]. cbn zeta. rewrite Hst. reflexivity.
  - intros t ce C Ht.
    destruct (skipTime_exec m t ce C Ht) as (objs' & _ & ->).
    rewrite Hst. reflexivity.
Qed.



(** C7: on a model with consistent identifiers, a successful [putObject]
    of an absent identifier followed by [removeObject] of that identifier
    succeeds, returns the payload, and gives back the position store and
    the object map exactly. *)
Theorem put_then_remove_roundtrip (m m1 : Model) (obj_id : ObjectId)
  (obj : Payload) (pos : Q) :
  ids_consistent m ->
  objects m !! obj_id = None ->
  putObject obj_id obj pos m = (Ok tt, m1) ->
  exists m2,
    removeObject obj_id m1 = (Ok obj, m2) /\
    object_positions m2 = object_positions m /\
    objects m2 = objects m.
Proof.
  intros C L Hput.
  destruct (putObject_exec m obj_id obj pos C L)
    as [(e & other & _ & _ & _ & Heq)|(_ & n & _ & Heq)];
    rewrite Heq in Hput; [discriminate|]. clear Heq.
  destruct (_model_automata (_state m) change) as [s|] eqn:A;
    [|discriminate].
  injection Hput as <-.
  destruct (list_find_inserted (object_positions m) n obj_id (round5 pos)
              (consistent_absent m obj_id C L)) as (i & Hfind & Hdel).
  rewrite removeObject_eq. cbn. rewrite Hfind. cbn.
  rewrite lookup_insert_eq, (change_twice _ _ A).
  eexists. split; [reflexivity|]. cbn. split; [exact Hdel|].
  apply delete_insert_id, L.
Qed.

(** C10 (amended): with speed [== 0], a time other than 0, and every
    stored position rounded and, when the ends are cleaned, within
    [0, length], [skipTime] displaces by [time * speed == 0] and changes
    neither the position store nor the object map nor the speed; it fires
    [change], so it returns in [dirty] from [pristine] and is rejected,
    with the model as it was, in [moving]. *)
Theorem skipTime_at_rest (m : Model) (t : Q) (clean_ends : bool) :
  speed m == 0 ->
  ~ t == 0 ->
  all_rounded m ->
  (clean_ends = true -> in_range m) ->
  t * speed m == 0 /\
  skipTime t clean_ends m =
    match _model_automata (_state m) change with
    | Some s => (Ok (t * speed m), set_state s m)
    | None => (Raise (AutomataException change (_state m)), m)
    end /\
  (_state m = pristine ->
   skipTime t clean_ends m = (Ok (t * speed m), set_state dirty m)) /\
  (_state m = moving ->
   skipTime t clean_ends m = (Raise (AutomataException change moving), m)).
Proof.
  intros Hs Ht R IR.
  assert (Hd : t * speed m == 0) by (rewrite Hs; ring).
  assert (Heq : skipTime t clean_ends m =
    match _model_automata (_state m) change with
    | Some s => (Ok (t * speed m), set_state s m)
    | None => (Raise (AutomataException change (_state m)), m)
    end).
  { unfold skipTime.
    destruct (Qeq_bool t 0) eqn:E; [apply Qeq_bool_iff in E; contradiction|].
    unfold_meth. rewrite (displace_zero _ _ Hd R).
    destruct clean_ends.
    - specialize (IR eq_refl). unfold clean_low, clean_high.
      cbn [object_positions objects set_object_positions set_objects length].
      rewrite pop_while_id.
      2:{ eapply Forall_impl; [exact IR|].
          intros e [H _]. apply Qlt_bool_false, H. }
      cbn [object_positions objects set_object_positions set_objects length].
      rewrite pop_while_id.
      2:{ apply Forall_reverse. eapply Forall_impl; [exact IR|].
          intros e [_ H]. apply Qlt_bool_false, H. }
      rewrite reverse_involutive, stateTransfer_eq. cbn.
      destruct (_model_automata (_state m) change); destruct m; reflexivity.
    - rewrite stateTransfer_eq. cbn.
      destruct (_model_automata (_state m) change); destruct m; reflexivity. }
  split; [exact Hd|]. split; [exact Heq|].
  split; intros Hst; rewrite Heq, Hst; reflexivity.
Qed.

(** *** Every call, one by one *)

(** [putObject] on any model: it raises before it assigns anything, or it
    assigns and then fires [change]. *)
Lemma putObject_shape (m : Model) (obj_id : ObjectId) (obj : Payload)
  (pos : Q) :
  (exists e, (forall a s, e <> AutomataException a s) /\
             putObject obj_id obj pos m = (Raise e, m)) \/
  (exists n,
     putObject obj_id obj pos m =
       match _model_automata (_state m) change with
       | Some s => (Ok tt, set_state s (placed obj_id obj (round5 pos) n m))
       | None => (Raise (AutomataException change (_state m)),
                  placed obj_id obj (round5 pos) n m)
       end).
Proof.
  unfold putObject. unfold_meth.
  destruct (bool_decide (objects m !! obj_id = None));
    [|left; eexists; split; [|reflexivity]; discriminate].
  cbn iota.
  assert (Hleft : forall e : Exn Payload,
            (forall a s, e <> AutomataException a s) ->
            (exists e0 : Exn Payload,
               (forall a s, e0 <> AutomataException a s) /\
               (Raise e, m) = (@Raise Payload unit e0, m)))
    by (intros e He; exists e; split; [exact He|reflexivity]).
  destruct (bool_decide (0 < size (objects m))%nat).
  - destruct (search_pos (object_positions m) (round5 pos))
      as [[[n_obj_id n_pos] n_idx]|e] eqn:Es.
    + cbn iota. destruct (Qeq_bool n_pos (round5 pos)).
      * left. destruct (objects m !! n_obj_id); apply Hleft; discriminate.
      * right. destruct (Qlt_bool n_pos (round5 pos)); eexists;
          unfold_meth; rewrite stateTransfer_eq; unfold placed; cbn;
          destruct (_model_automata (_state m) change); reflexivity.
    + left. apply Hleft.
      unfold search_pos in Es. destruct (object_positions m); [|discriminate].
      injection Es as <-. discriminate.
  - right. exists 0%nat.
    unfold_meth; rewrite stateTransfer_eq; unfold placed; cbn;
      destruct (_model_automata (_state m) change); reflexivity.
Qed.

(** How a call can change the position store. *)
Lemma run_positions (m m' : Model) (op : Op Payload)
  (r : Outcome Payload (Value Payload)) :
  run op m = (r, m') ->
  object_positions m' = object_positions m \/
  (exists i, object_positions m' = delete i (object_positions m)) \/
  (displaces op = true /\
   exists d, object_positions m' `sublist_of`
               displace d (object_positions m)) \/
  (exists obj_id obj pos n,
     op = OPutObject obj_id obj pos /\
     object_positions m' =
       list_insert_at n (obj_id, round5 pos) (object_positions m)).
Proof.
  assert (Hskip : forall t ce (m0 : Model) r0 m0',
    skipTime t ce m0 = (r0, m0') ->
    object_positions m0' = object_positions m0 \/
    exists d, object_positions m0' `sublist_of`
                displace d (object_positions m0)).
  { intros t ce m0 r0 m0' H. destruct (Qeq_dec t 0) as [Z|NZ].
    - rewrite (skipTime_zero m0 t ce Z) in H. injection H as _ <-.
      left. reflexivity.
    - destruct (skipTime_shape m0 t ce NZ)
        as (r1 & ps' & objs' & Hr1 & Hsub & Heq).
      cbn zeta in Heq. rewrite Heq in H. right. exists (t * speed m0).
      destruct Hr1 as [-> | ->];
        [destruct (_model_automata (_state m0) change)|];
        injection H as _ <-; exact Hsub. }
  destruct op; cbn [run]; rewrite bind_eq.
  - (* setSpeed *)
    rewrite setSpeed_eq.
    destruct (Qle_bool 0 v && Qle_bool v (max_speed m));
      [|intros H; injection H as _ <-; auto].
    destruct (negb (Qeq_bool (speed m) v));
      [|intros H; injection H as _ <-; auto].
    destruct (_model_automata (_state m) change);
      intros H; injection H as _ <-; auto.
  - (* putObject *)
    destruct (putObject_shape m obj_id obj pos) as [(e & _ & ->)|(n & ->)].
    + intros H; injection H as _ <-; auto.
    + destruct (_model_automata (_state m) change);
        intros H; injection H as _ <-; right; right; right;
        exists obj_id, obj, pos, n; split; reflexivity.
  - (* removeObject *)
    rewrite removeObject_eq.
    destruct (list_find _ (object_positions m)) as [[i e]|];
      [|intros H; injection H as _ <-; auto].
    cbn zeta. destruct (objects m !! obj_id);
      [destruct (_model_automata (_state m) change)|];
      intros H; injection H as _ <-; right; left; exists i; reflexivity.
  - (* skipTime *)
    destruct (skipTime time clean_ends m) as [r0 m0'] eqn:Es.
    destruct (Hskip _ _ _ _ _ Es) as [Hp|Hp].
    + destruct r0; intros H; injection H as _ <-; auto.
    + destruct r0; intros H; injection H as _ <-; right; right; left; auto.
  - (* resume *)
    rewrite resume_eq.
    destruct (_model_automata (_state m) resume_);
      intros H; injection H as _ <-; auto.
  - (* pause *)
    rewrite pause_eq.
    destruct (_model_automata (_state m) pause_) as [s|];
      [|intros H; injection H as _ <-; auto].
    destruct (Qle_bool 0 (time - _resume_time m));
      [|intros H; injection H as _ <-; auto].
    destruct (skipTime _ true (set_state s m)) as [r0 m0'] eqn:Es.
    destruct (Hskip _ _ _ _ _ Es) as [Hp|Hp].
    + destruct r0; intros H; injection H as _ <-; auto.
    + destruct r0; intros H; injection H as _ <-; right; right; left; auto.
  - (* startResolving *)
    unfold startResolving. rewrite stateTransfer_eq.
    destruct (_model_automata (_state m) start_resolving);
      intros H; injection H as _ <-; auto.
  - (* endResolving *)
    unfold endResolving. rewrite stateTransfer_eq.
    destruct (_model_automata (_state m) end_resolving);
      intros H; injection H as _ <-; auto.
  - (* checkpointPos *)
    unfold checkpointPos. unfold_meth.
    destruct (String.eqb cp.1 conv_end);
      [|destruct (checkpoint_positions m !! cp)];
      intros H; injection H as _ <-; auto.
  - (* nearestObject *)
    unfold nearestObject. unfold_meth.
    destruct (search_pos (object_positions m) pos) as [found|e];
      [destruct (objects m !! found.1.1)|];
      intros H; injection H as _ <-; auto.
  - intros H; injection H as _ <-; auto.
  - intros H; injection H as _ <-; auto.
  - intros H; injection H as _ <-; auto.
Qed.

Lemma putObject_clash (m : Model) (obj_id : ObjectId) (obj : Payload)
  (pos : Q) :
  objects m !! obj_id <> None ->
  putObject obj_id obj pos m =
    (Raise (AssertionError "Clashing object ID!"), m).
Proof.
  intros H. unfold putObject. unfold_meth.
  rewrite (bool_decide_eq_false_2 _ H). reflexivity.
Qed.

(** *** The invariants of the data model *)

Lemma insert_at_ids (ps : list (ObjectId * Q)) (n : nat)
  (e : ObjectId * Q) :
  (list_insert_at n e ps).*1 ≡ₚ e.1 :: ps.*1.
Proof.
  unfold list_insert_at. rewrite fmap_app, fmap_cons.
  rewrite <- Permutation_middle, <- fmap_app, take_drop. reflexivity.
Qed.

(** Every stored position is rounded: positions only come from [round]. *)
Lemma run_rounded (m m' : Model) (op : Op Payload)
  (r : Outcome Payload (Value Payload)) :
  all_rounded m -> run op m = (r, m') -> all_rounded m'.
Proof.
  unfold all_rounded. intros R H.
  destruct (run_positions _ _ _ _ H)
    as [-> | [(i & ->) | [(_ & d & Hsub) | (oid & obj & pos & n & _ & ->)]]].
  - exact R.
  - apply Forall_forall. intros e He.
    apply (proj1 (Forall_forall _ _) R).
    eapply elem_of_sublist; [exact He|apply sublist_delete].
  - apply Forall_forall. intros e He.
    apply (proj1 (Forall_forall _ _) (displace_rounded d (object_positions m))).
    eapply elem_of_sublist; eassumption.
  - unfold list_insert_at. apply Forall_app. split; [apply Forall_take, R|].
    constructor; [apply round5_rounded|apply Forall_drop, R].
Qed.

(** The identifiers of the position store and the keys of the object map
    stay the same set, without repetition, through every call. *)
Lemma run_consistent (m m' : Model) (op : Op Payload)
  (r : Outcome Payload (Value Payload)) :
  ids_consistent m -> run op m = (r, m') -> ids_consistent m'.
Proof.
  intros C.
  assert (Hskip : forall t ce (m0 : Model) r0 m0',
    ids_consistent m0 -> skipTime t ce m0 = (r0, m0') -> ids_consistent m0').
  { intros t ce m0 r0 m0' C0 H. destruct (Qeq_dec t 0) as [Z|NZ].
    - rewrite (skipTime_zero m0 t ce Z) in H. injection H as _ <-.
      exact C0.
    - destruct (skipTime_exec m0 t ce C0 NZ) as (objs' & C1 & Heq).
      cbn zeta in C1, Heq. rewrite Heq in H.
      destruct (_model_automata (_state m0) change);
        injection H as _ <-; exact C1. }
  destruct op; cbn [run]; rewrite bind_eq.
  - rewrite setSpeed_eq.
    destruct (Qle_bool 0 v && Qle_bool v (max_speed m));
      [|intros H; injection H as _ <-; auto].
    destruct (negb (Qeq_bool (speed m) v));
      [|intros H; injection H as _ <-; auto].
    destruct (_model_automata (_state m) change);
      intros H; injection H as _ <-; exact C.
  - destruct (objects m !! obj_id) as [o|] eqn:L.
    { rewrite putObject_clash by congruence.
      intros H; injection H as _ <-; exact C. }
    destruct (putObject_exec m obj_id obj pos C L)
      as [(e & other & _ & _ & _ & ->)|(_ & n & _ & ->)].
    + intros H; injection H as _ <-; exact C.
    + assert (C' : ids_consistent (placed obj_id obj (round5 pos) n m)).
      { pose proof (consistent_absent m obj_id C L) as Hni.
        destruct C as [ND HD]. split; unfold ids, placed; cbn.
        - rewrite insert_at_ids. apply NoDup_cons. split; assumption.
        - rewrite dom_insert_L, HD. apply set_eq. intros x.
          rewrite elem_of_union, elem_of_singleton, !elem_of_list_to_set.
          rewrite insert_at_ids, elem_of_cons. reflexivity. }
      destruct (_model_automata (_state m) change);
        intros H; injection H as _ <-; exact C'.
  - rewrite removeObject_eq.
    destruct (list_find _ (object_positions m)) as [[i e]|] eqn:F;
      [|intros H; injection H as _ <-; exact C].
    apply list_find_Some in F as (Hi & He & _).
    assert (Hs : is_Some (objects m !! obj_id)).
    { rewrite <- He. apply consistent_lookup; [exact C|].
      eapply list_elem_of_lookup_2, Hi. }
    destruct Hs as [o Ho]. rewrite Ho. cbn zeta.
    assert (C' : ids_consistent
              (set_objects (delete obj_id (objects m))
                 (set_object_positions (delete i (object_positions m)) m))).
    { destruct C as [ND HD]. unfold ids in *.
      rewrite <- (take_drop_middle _ _ _ Hi) in ND, HD.
      rewrite fmap_app, fmap_cons, He in ND, HD.
      apply NoDup_app in ND as (ND1 & Hdisj & ND2).
      apply NoDup_cons in ND2 as (Hni & ND2).
      split; unfold ids; cbn; rewrite delete_take_drop, fmap_app.
      - apply NoDup_app. split; [exact ND1|]. split; [|exact ND2].
        intros x Hx Hx'. apply (Hdisj x Hx). right. exact Hx'.
      - rewrite dom_delete_L, HD. apply set_eq. intros x.
        rewrite elem_of_difference, !elem_of_list_to_set, !elem_of_app.
        rewrite elem_of_cons, elem_of_singleton. split.
        + intros [[H|[H|H]] Hne]; [left; exact H|contradiction|right; exact H].
        + intros [H|H]; (split; [auto|]); intros ->.
          * apply (Hdisj obj_id H). left.
          * contradiction. }
    destruct (_model_automata (_state m) change);
      intros H; injection H as _ <-; exact C'.
  - destruct (skipTime time clean_ends m) as [r0 m0'] eqn:Es.
    pose proof (Hskip _ _ _ _ _ C Es).
    destruct r0; intros H'; injection H' as _ <-; assumption.
  - rewrite resume_eq.
    destruct (_model_automata (_state m) resume_);
      intros H; injection H as _ <-; exact C.
  - rewrite pause_eq.
    destruct (_model_automata (_state m) pause_) as [s|];
      [|intros H; injection H as _ <-; exact C].
    destruct (Qle_bool 0 (time - _resume_time m));
      [|intros H; injection H as _ <-; exact C].
    destruct (skipTime _ true (set_state s m)) as [r0 m0'] eqn:Es.
    assert (ids_consistent m0') by (eapply Hskip; [|exact Es]; exact C).
    destruct r0; intros H'; injection H' as _ <-; assumption.
  - unfold startResolving. rewrite stateTransfer_eq.
    destruct (_model_automata (_state m) start_resolving);
      intros H; injection H as _ <-; exact C.
  - unfold endResolving. rewrite stateTransfer_eq.
    destruct (_model_automata (_state m) end_resolving);
      intros H; injection H as _ <-; exact C.
  - unfold checkpointPos. unfold_meth.
    destruct (String.eqb cp.1 conv_end);
      [|destruct (checkpoint_positions m !! cp)];
      intros H; injection H as _ <-; exact C.
  - unfold nearestObject. unfold_meth.
    destruct (search_pos (object_positions m) pos) as [found|e];
      [destruct (objects m !! found.1.1)|];
      intros H; injection H as _ <-; exact C.
  - intros H; injection H as _ <-; exact C.
  - intros H; injection H as _ <-; exact C.
  - intros H; injection H as _ <-; exact C.
Qed.

Lemma init_invariants (len ms : Q) (cps : list (CheckpointId * Q))
  (mid : AgentId) (m : Model) :
  __init__ len ms cps mid = Ok m ->
  ids_consistent m /\ all_rounded m /\ distinct_positions m /\
  _state m = pristine /\ speed m = 0.
Proof.
  unfold __init__. intros H.
  assert (E : object_positions m = [] /\ objects m = ∅ /\
              _state m = pristine /\ speed m = 0).
  { repeat match type of H with
           | (if ?b then _ else _) = _ => destruct b; [discriminate|]
           | match ?x with _ => _ end = _ => destruct x
           end; inversion H; subst; cbn; auto. }
  destruct E as (Ep & Eo & Es & Ev).
  unfold ids_consistent, all_rounded, distinct_positions, ids.
  rewrite Ep, Eo. repeat split; try constructor; try assumption.
Qed.

(** The models the public interface produces have consistent identifiers
    and rounded positions. *)
Lemma reachable_invariants (m : Model) :
  reachable m -> ids_consistent m /\ all_rounded m.
Proof.
  induction 1 as [len ms cps mid m H|m op r m' _ [C R] H].
  - destruct (init_invariants _ _ _ _ _ H) as (C & R & _). auto.
  - split; [eapply run_consistent|eapply run_rounded]; eassumption.
Qed.

(** C5 (amended): after a call returns successfully on a model whose
    position store is sorted ascending with no two entries at the same
    position, the store is sorted ascending; it still has no two entries at
    the same position unless the call is [skipTime] or [pause], which round
    the displaced positions.  Every call other than [putObject] also keeps
    a store sorted that merely is sorted. *)
Theorem positions_stay_sorted (m m' : Model) (op : Op Payload)
  (v : Value Payload) :
  ids_consistent m ->
  run op m = (Ok v, m') ->
  (sorted_positions m ->
   is_put op = false \/ distinct_positions m ->
   sorted_positions m') /\
  (distinct_positions m -> displaces op = false -> distinct_positions m').
Proof.
  intros C H. unfold sorted_positions, distinct_positions.
  destruct (is_put op) eqn:P.
  - destruct op; try discriminate. clear P.
    assert (Hd : StronglySorted pos_lt (object_positions m) ->
                 StronglySorted pos_lt (object_positions m')).
    { intros Hs. cbn [run] in H. rewrite bind_eq in H.
      destruct (objects m !! obj_id) as [o|] eqn:L.
      { rewrite putObject_clash in H by congruence. discriminate. }
      destruct (putObject_exec m obj_id obj pos C L)
        as [(e & other & _ & _ & _ & Heq)|(_ & n & Hsorted & Heq)];
        rewrite Heq in H; [discriminate|].
      destruct (_model_automata (_state m) change); [|discriminate].
      injection H as _ <-. exact (Hsorted Hs). }
    split.
    + intros _ [?|Hs]; [discriminate|]. apply pos_lt_le_sorted, Hd, Hs.
    + intros Hs _. apply Hd, Hs.
  - destruct (run_positions _ _ _ _ H)
      as [-> | [(i & ->) | [(Hdis & d & Hsub) | (oid & o & x & n & -> & _)]]].
    + split; auto.
    + split; intros Hs _;
        (eapply StronglySorted_sublist; [apply sublist_delete|exact Hs]).
    + split.
      * intros Hs _. eapply StronglySorted_sublist; [exact Hsub|].
        apply displace_sorted, Hs.
      * intros _ Hn. congruence.
    + discriminate.
Qed.

(** C1 (amended): a call that raises before it has assigned anything
    leaves the whole model as it was: [putObject] on a collision or a
    clashing identifier, [setSpeed] on a speed out of range or an illegal
    [change], [removeObject] of an identifier that is not in the position
    store, [resume], [pause], [startResolving] and [endResolving] on an
    illegal action, and the queries.  The failures raised after an
    assignment (see [raised_after_assignment]) are the only other ones. *)
Theorem failure_leaves_model (m m' : Model) (op : Op Payload)
  (e : Exn Payload) :
  run op m = (Raise e, m') ->
  raised_after_assignment op e = false ->
  m' = m.
Proof.
  assert (Hskip : forall t ce (m0 : Model) e0 m0',
    skipTime t ce m0 = (Raise e0, m0') ->
    e0 = KeyError \/
    (e0 = AutomataException change (_state m0) /\
     _model_automata (_state m0) change = None)).
  { intros t ce m0 e0 m0' H. destruct (Qeq_dec t 0) as [Z|NZ].
    - rewrite (skipTime_zero m0 t ce Z) in H. discriminate.
    - destruct (skipTime_shape m0 t ce NZ)
        as (r1 & ps' & objs' & Hr1 & _ & Heq).
      cbn zeta in Heq. rewrite Heq in H.
      destruct Hr1 as [-> | ->].
      + destruct (_model_automata (_state m0) change); [discriminate|].
        injection H as <- _. auto.
      + injection H as <- _. auto. }
  destruct op; cbn [run]; rewrite bind_eq.
  - rewrite setSpeed_eq.
    destruct (Qle_bool 0 v && Qle_bool v (max_speed m));
      [|intros H _; injection H as _ <-; reflexivity].
    destruct (negb (Qeq_bool (speed m) v)); [|discriminate].
    destruct (_model_automata (_state m) change); [discriminate|].
    intros H _; injection H as _ <-; reflexivity.
  - destruct (putObject_shape m obj_id obj pos) as [(e0 & _ & ->)|(n & ->)].
    + intros H _; injection H as _ <-; reflexivity.
    + destruct (_model_automata (_state m) change); [discriminate|].
      intros H; injection H as <- _. discriminate.
  - rewrite removeObject_eq.
    destruct (list_find _ (object_positions m)) as [[i e0]|];
      [|intros H _; injection H as _ <-; reflexivity].
    cbn zeta. destruct (objects m !! obj_id);
      [destruct (_model_automata (_state m) change); [discriminate|]|];
      intros H; injection H as <- _; discriminate.
  - destruct (skipTime time clean_ends m) as [[d|e0] m0'] eqn:Es;
      [discriminate|].
    intros H. injection H as <- _.
    destruct (Hskip _ _ _ _ _ Es) as [-> | [-> _]]; discriminate.
  - rewrite resume_eq.
    destruct (_model_automata (_state m) resume_); [discriminate|].
    intros H _; injection H as _ <-; reflexivity.
  - rewrite pause_eq.
    destruct (_model_automata (_state m) pause_) as [s|] eqn:A;
      [|intros H _; injection H as _ <-; reflexivity].
    destruct (Qle_bool 0 (time - _resume_time m));
      [|intros H; injection H as <- _; discriminate].
    destruct (skipTime _ true (set_state s m)) as [[d|e0] m0'] eqn:Es;
      [discriminate|].
    intros H. injection H as <- _.
    destruct (Hskip _ _ _ _ _ Es) as [-> | [_ Hn]]; [discriminate|].
    exfalso. cbn in Hn. destruct (_state m); cbn in A; try discriminate.
    injection A as <-. discriminate.
  - unfold startResolving. rewrite stateTransfer_eq.
    destruct (_model_automata (_state m) start_resolving); [discriminate|].
    intros H _; injection H as _ <-; reflexivity.
  - unfold endResolving. rewrite stateTransfer_eq.
    destruct (_model_automata (_state m) end_resolving); [discriminate|].
    intros H _; injection H as _ <-; reflexivity.
  - unfold checkpointPos. unfold_meth.
    destruct (String.eqb cp.1 conv_end);
      [|destruct (checkpoint_positions m !! cp)]; try discriminate.
    intros H _; injection H as _ <-; reflexivity.
  - unfold nearestObject. unfold_meth.
    destruct (search_pos (object_positions m) pos) as [found|e0];
      [destruct (objects m !! found.1.1)|]; try discriminate;
      intros H _; injection H as _ <-; reflexivity.
  - discriminate.
  - discriminate.
  - discriminate.
Qed.

End Exec.

(** ** The sample models, reached and run *)

Module SampleFacts.
Import Samples.

Local Open Scope Q_scope.

Example fresh_init : __init__ 1 1 [] ("world"%string, 0%Z) = Ok fresh.
Proof. reflexivity. Qed.

Example fresh_moving_reached : resume 0 fresh = (Ok tt, fresh_moving).
Proof. reflexivity. Qed.

Example two_close_reached :
  (setSpeed 1 ;; putObject 1%Z "a"%string 0 ;;
   putObject 2%Z "b"%string (1 # 100000)) fresh = (Ok tt, two_close).
Proof. vm_compute. reflexivity. Qed.

Example two_moving_reached :
  (startResolving ;; endResolving ;; resume 0) two_close = (Ok tt, two_moving).
Proof. vm_compute. reflexivity. Qed.

Example one_below_reached :
  putObject 1%Z "a"%string (-1) fresh = (Ok tt, one_below).
Proof. vm_compute. reflexivity. Qed.

Example one_inside_reached :
  putObject 1%Z "a"%string (1 # 2) fresh = (Ok tt, one_inside).
Proof. vm_compute. reflexivity. Qed.

(** Two objects put at the same position of an empty segment: the second
    call raises the collision and the segment still holds one object. *)
Example second_put_collides :
  (putObject 1%Z "a"%string (3 # 10) ;; putObject 2%Z "b"%string (3 # 10))
    fresh =
  (Raise (CollisionException "b"%string "a"%string (30000 # 100000)
            ("world"%string, 0%Z)),
   mkModel ("world"%string, 0%Z) [] ∅ 1 1 dirty 0 0
     (<[1%Z := "a"%string]> ∅) [(1%Z, 30000 # 100000)]).
Proof. vm_compute. reflexivity. Qed.

Example shadowed_init :
  __init__ 10 1 [(("conv_end"%string, 5%Z), 3)] ("world"%string, 0%Z)
  = Ok shadowed.
Proof. vm_compute. reflexivity. Qed.

Example shadowed_checkpointPos :
  checkpoint_positions shadowed !! ("conv_end"%string, 5%Z) = Some 3 /\
  checkpointPos ("conv_end"%string, 5%Z) shadowed = (Ok 10, shadowed).
Proof. split; reflexivity. Qed.

End SampleFacts.

(** ** The properties on the sample models *)

Import Samples.

Local Open Scope Q_scope.

Lemma skipTime_zero_noop_witness :
  0 # 7 == 0 /\ _state two_moving = moving /\
  skipTime (0 # 7) true two_moving = (Ok 0, two_moving) /\
  run (OSkipTime (0 # 7) true) two_moving = (Ok (VNum 0), two_moving) /\
  exists m',
    skipTime (0 # 7) true two_moving = (Ok 0, m') /\ _state m' = moving /\
    object_positions m' = object_positions two_moving /\
    objects m' = objects two_moving /\ speed m' = speed two_moving.
Proof.
  destruct (skipTime_zero_noop two_moving (0 # 7) true) as (H1 & H2 & H3);
    [reflexivity|].
  split; [reflexivity|]. split; [reflexivity|].
  split; [exact H1|]. split; [exact H2|exact (H3 eq_refl)].
Defined.

(** C2, as stated, fails: [pause(0.5)] in [moving] with resume time 0
    succeeds and leaves the automaton in [dirty]. *)
Lemma pause_ends_dirty :
  _state two_moving = moving /\
  _resume_time two_moving <= 1 # 2 /\
  (pause (1 # 2) two_moving).1 = Ok tt /\
  _state (pause (1 # 2) two_moving).2 = dirty /\
  _state (pause (1 # 2) two_moving).2 <> pristine.
Proof. repeat split; try discriminate; vm_compute; reflexivity. Qed.

Lemma pause_settles_witness :
  _state two_moving = moving /\
  ids_consistent two_moving /\
  _resume_time two_moving <= 1 # 2 /\
  (exists m', pause (1 # 2) two_moving = (Ok tt, m')) /\
  (forall r m', pause (1 # 2) two_moving = (Ok r, m') -> _state m' = dirty).
Proof.
  assert (C : ids_consistent two_moving) by compute_done.
  assert (L : _resume_time two_moving <= 1 # 2) by compute_done.
  destruct (pause_settles two_moving (1 # 2) eq_refl) as [H1 H2].
  split; [reflexivity|]. split; [exact C|]. split; [exact L|].
  split; [exact (H2 C L)|].
  intros r m' H. apply (H1 r m' H). compute_done.
Defined.

(** C3, as stated, fails: in [moving], [setSpeed] with the current speed
    and [skipTime(0)] return normally, and a colliding [putObject] raises
    the collision, not the protocol violation. *)
Lemma moving_accepts_noops :
  _state two_moving = moving /\
  0 <= 1 /\ 1 <= max_speed two_moving /\
  setSpeed 1 two_moving = (Ok tt, two_moving) /\
  skipTime 0 true two_moving = (Ok 0, two_moving) /\
  objects two_moving !! 3%Z = None /\
  putObject 3%Z "c"%string 0 two_moving =
    (Raise (CollisionException "c"%string "a"%string (0 # 100000)
              ("world"%string, 0%Z)), two_moving).
Proof. repeat split; try discriminate; vm_compute; reflexivity. Qed.

Lemma moving_rejects_changes_witness :
  _state two_moving = moving /\
  setSpeed (1 # 2) two_moving =
    (Raise (AutomataException change moving), two_moving) /\
  (putObject 3%Z "c"%string (1 # 2) two_moving).1 =
    Raise (AutomataException change moving) /\
  (removeObject 1%Z two_moving).1 = Raise (AutomataException change moving) /\
  (skipTime 1 true two_moving).1 = Raise (AutomataException change moving).
Proof.
  assert (C : ids_consistent two_moving) by compute_done.
  destruct (moving_rejects_changes two_moving eq_refl) as (H1 & H2 & H3 & H4).
  split; [reflexivity|]. split; [|split; [|split]].
  - apply H1; compute_done.
  - apply H2; [exact C|reflexivity|compute_done].
  - apply H3; [exact C|compute_done].
  - apply H4; [exact C|compute_done].
Defined.

Example two_close_collision :
  putObject 3%Z "c"%string (4 # 1000000) two_close =
    (Raise (CollisionException "c"%string "a"%string (0 # 100000)
              ("world"%string, 0%Z)), two_close).
Proof. vm_compute. reflexivity. Qed.


(** C5, as stated, fails: the store of [two_close] is sorted without
    duplicates; [skipTime(0.109375)] at speed 1 returns normally and
    leaves both objects at 0.10938. *)
Lemma skipTime_merges_positions :
  ids_consistent two_close /\
  distinct_positions two_close /\
  (run (OSkipTime (7 # 64) true) two_close).1 = Ok (VNum (7 # 64)) /\
  object_positions (run (OSkipTime (7 # 64) true) two_close).2 =
    [(1%Z, 10938 # 100000); (2%Z, 10938 # 100000)] /\
  ~ distinct_positions (run (OSkipTime (7 # 64) true) two_close).2.
Proof.
  split; [compute_done|]. split; [compute_done|].
  split; [vm_compute; reflexivity|]. split; [vm_compute; reflexivity|].
  compute_done.
Qed.

Lemma positions_stay_sorted_witness :
  ids_consistent two_close /\
  sorted_positions two_close /\
  distinct_positions two_close /\
  object_positions (run (OPutObject 3%Z "c"%string (1 # 200)) two_close).2 =
    [(1%Z, 0 # 100000); (2%Z, 1 # 100000); (3%Z, 500 # 100000)] /\
  sorted_positions (run (OPutObject 3%Z "c"%string (1 # 200)) two_close).2 /\
  distinct_positions (run (OPutObject 3%Z "c"%string (1 # 200)) two_close).2.
Proof.
  assert (C : ids_consistent two_close) by compute_done.
  assert (S1 : sorted_positions two_close) by compute_done.
  assert (S2 : distinct_positions two_close) by compute_done.
  assert (H : run (OPutObject 3%Z "c"%string (1 # 200)) two_close =
              (Ok VNone,
               (run (OPutObject 3%Z "c"%string (1 # 200)) two_close).2))
    by (vm_compute; reflexivity).
  destruct (positions_stay_sorted two_close _ _ _ C H) as [H1 H2].
  split; [exact C|]. split; [exact S1|]. split; [exact S2|].
  split; [vm_compute; reflexivity|].
  split; [apply H1; [exact S1|right; exact S2]|apply H2; [exact S2|reflexivity]].
Defined.


Example resume_pause_quarter :
  (resume 0 ;; pause (1 # 4)) two_resolved =
    (Ok tt,
     mkModel ("world"%string, 0%Z) [] ∅ 1 1 dirty 0 1
       (<[2%Z := "b"%string]> (<[1%Z := "a"%string]> ∅))
       [(1%Z, 25000 # 100000); (2%Z, 25001 # 100000)]).
Proof. vm_compute. reflexivity. Qed.

Lemma put_then_remove_roundtrip_witness :
  ids_consistent two_close /\
  objects two_close !! 3%Z = None /\
  putObject 3%Z "c"%string (1 # 200) two_close =
    (Ok tt, (putObject 3%Z "c"%string (1 # 200) two_close).2) /\
  exists m2,
    removeObject 3%Z (putObject 3%Z "c"%string (1 # 200) two_close).2 =
      (Ok "c"%string, m2) /\
    object_positions m2 = object_positions two_close /\
    objects m2 = objects two_close.
Proof.
  assert (C : ids_consistent two_close) by compute_done.
  assert (H : putObject 3%Z "c"%string (1 # 200) two_close =
              (Ok tt, (putObject 3%Z "c"%string (1 # 200) two_close).2))
    by (vm_compute; reflexivity).
  split; [exact C|]. split; [reflexivity|].
  split; [exact H|].
  exact (put_then_remove_roundtrip two_close _ 3%Z "c"%string (1 # 200)
           C eq_refl H).
Defined.

(** C10, as stated, fails: [one_below] has speed 0 and an object at -1
    (put there by [putObject], which accepts any position);
    [skipTime(1)] returns 0 and removes the object from the position store
    and from the object map. *)
Lemma skipTime_at_rest_drops_object :
  speed one_below == 0 /\
  ~ 1 == 0 /\
  object_positions one_below = [(1%Z, (-100000) # 100000)] /\
  objects one_below !! 1%Z = Some "a"%string /\
  (skipTime 1 true one_below).1 = Ok (0 # 1) /\
  object_positions (skipTime 1 true one_below).2 = [] /\
  objects (skipTime 1 true one_below).2 !! 1%Z = None.
Proof. repeat split; try discriminate; vm_compute; reflexivity. Qed.

Lemma skipTime_at_rest_witness :
  speed one_inside == 0 /\
  ~ 3 == 0 /\
  all_rounded one_inside /\
  in_range one_inside /\
  3 * speed one_inside == 0 /\
  skipTime 3 true one_inside = (Ok (3 * speed one_inside), one_inside) /\
  skipTime 3 true (set_state pristine one_inside) =
    (Ok (3 * speed one_inside), one_inside) /\
  skipTime 3 true (set_state moving one_inside) =
    (Raise (AutomataException change moving), set_state moving one_inside).
Proof.
  assert (Hs : speed one_inside == 0) by reflexivity.
  assert (Ht : ~ 3 == 0) by compute_done.
  assert (R : all_rounded one_inside) by compute_done.
  assert (IR : in_range one_inside) by compute_done.
  split; [exact Hs|]. split; [exact Ht|]. split; [exact R|].
  split; [exact IR|].
  destruct (skipTime_at_rest one_inside 3 true Hs Ht R (fun _ => IR))
    as (Hd & Heq & _ & _).
  destruct (skipTime_at_rest (set_state pristine one_inside) 3 true
              Hs Ht R (fun _ => IR)) as (_ & _ & Hp & _).
  destruct (skipTime_at_rest (set_state moving one_inside) 3 true
              Hs Ht R (fun _ => IR)) as (_ & _ & _ & Hm).
  split; [exact Hd|]. split; [exact Heq|].
  split; [exact (Hp eq_refl)|exact (Hm eq_refl)].
Defined.

(** C1, as stated, fails: in [moving], [putObject] stores the object and
    only then raises the protocol violation; [pause] before the resume
    time raises after its transition to [pristine]. *)
Lemma failed_calls_leave_changes :
  _state two_moving = moving /\
  (run (OPutObject 3%Z "c"%string (1 # 200)) two_moving).1 =
    Raise (AutomataException change moving) /\
  objects two_moving !! 3%Z = None /\
  objects (run (OPutObject 3%Z "c"%string (1 # 200)) two_moving).2 !! 3%Z =
    Some "c"%string /\
  object_positions two_moving = [(1%Z, 0 # 100000); (2%Z, 1 # 100000)] /\
  object_positions (run (OPutObject 3%Z "c"%string (1 # 200)) two_moving).2 =
    [(1%Z, 0 # 100000); (2%Z, 1 # 100000); (3%Z, 500 # 100000)] /\
  (run (OPause (-1)) two_moving).1 =
    Raise (AssertionError "Pause before resume??") /\
  _state (run (OPause (-1)) two_moving).2 = pristine.
Proof. repeat split; vm_compute; reflexivity. Qed.

Lemma failure_leaves_model_witness :
  run (OPutObject 3%Z "c"%string 0) two_close =
    (Raise (CollisionException "c"%string "a"%string (0 # 100000)
              ("world"%string, 0%Z)),
     (run (OPutObject 3%Z "c"%string 0) two_close).2) /\
  (run (OPutObject 3%Z "c"%string 0) two_close).2 = two_close /\
  (run (OSetSpeed 2) two_moving).2 = two_moving /\
  (run (OSetSpeed (1 # 2)) two_moving).2 = two_moving.
Proof.
  assert (H : run (OPutObject 3%Z "c"%string 0) two_close =
    (Raise (CollisionException "c"%string "a"%string (0 # 100000)
              ("world"%string, 0%Z)),
     (run (OPutObject 3%Z "c"%string 0) two_close).2))
    by (vm_compute; reflexivity).
  assert (H2 : run (OSetSpeed 2) two_moving =
    (Raise (AssertionError "Speed is not in [0, max_speed]!"),
     (run (OSetSpeed 2) two_moving).2)) by (vm_compute; reflexivity).
  assert (H3 : run (OSetSpeed (1 # 2)) two_moving =
    (Raise (AutomataException change moving),
     (run (OSetSpeed (1 # 2)) two_moving).2)) by (vm_compute; reflexivity).
  split; [exact H|]. split; [|split].
  - exact (failure_leaves_model _ _ _ _ H eq_refl).
  - exact (failure_leaves_model _ _ _ _ H2 eq_refl).
  - exact (failure_leaves_model _ _ _ _ H3 eq_refl).
Defined.

(** ** The event horizon *)

Section EventFacts.

Context {Payload : Type}.

#[local] Abbreviation Model := (ConveyorModel Payload).
#[local] Abbreviation Ev := (@Event Payload).

Local Open Scope Q_scope.

(** *** The sort *)

Lemma insert_by_time_perm (e : Ev) (l : list Ev) :
  insert_by_time e l ≡ₚ e :: l.
Proof.
  induction l as [|e' l IH]; cbn [insert_by_time]; [reflexivity|].
  destruct (Qle_bool e.2 e'.2); [reflexivity|].
  rewrite IH. apply Permutation_swap.
Qed.

Lemma sorted_by_time_perm (l : list Ev) : sorted_by_time l ≡ₚ l.
Proof.
  induction l as [|e l IH]; [reflexivity|].
  cbn [sorted_by_time foldr]. rewrite insert_by_time_perm.
  apply Permutation_skip, IH.
Qed.



(** *** The cursor *)

Lemma skip_count_spec (skip_immediate : bool) (pos : Q)
  (rest : list (CheckpointId * Q)) :
  (forall j c, (j < skip_count skip_immediate pos rest)%nat ->
     rest !! j = Some c -> _skip_cond skip_immediate c pos = true) /\
  (forall c, rest !! skip_count skip_immediate pos rest = Some c ->
     _skip_cond skip_immediate c pos = false).
Proof.
  induction rest as [|cp rest [IH1 IH2]]; cbn [skip_count].
  - split; [intros j c Hj; lia|intros c H; discriminate].
  - destruct (_skip_cond skip_immediate cp pos) eqn:E.
    + split.
      * intros [|j] c Hj Hc; cbn in Hc; [congruence|].
        apply (IH1 j c); [lia|exact Hc].
      * intros c Hc. cbn in Hc. apply IH2, Hc.
    + split; [intros j c Hj; lia|].
      intros c Hc. cbn in Hc. congruence.
Qed.

(** Once skipped, a checkpoint stays skipped for every object further
    along. *)
Lemma skip_cond_mono (skip_immediate : bool) (c : CheckpointId * Q)
  (pos pos' : Q) :
  pos <= pos' -> _skip_cond skip_immediate c pos = true ->
  _skip_cond skip_immediate c pos' = true.
Proof.
  unfold _skip_cond. intros L. destruct skip_immediate.
  - rewrite !Qle_bool_iff. lra.
  - rewrite !Qlt_bool_iff. lra.
Qed.

(** Where the cursor stops is where a search from the first checkpoint
    stops, provided every checkpoint before the cursor is one the object
    skips. *)
Lemma cursor_is_first (skip_immediate : bool) (pos : Q)
  (c_points : list (CheckpointId * Q)) (cp_idx : nat) :
  (forall j c, (j < cp_idx)%nat -> c_points !! j = Some c ->
     _skip_cond skip_immediate c pos = true) ->
  let k := (cp_idx + skip_count skip_immediate pos (drop cp_idx c_points))%nat in
  list_find (fun cp => _skip_cond skip_immediate cp pos = false) c_points =
  match c_points !! k with
  | Some cp => Some (k, cp)
  | None => None
  end.
Proof.
  intros Hbefore k.
  destruct (skip_count_spec skip_immediate pos (drop cp_idx c_points))
    as [H1 H2].
  assert (Hall : forall j c, (j < k)%nat -> c_points !! j = Some c ->
                 _skip_cond skip_immediate c pos = true).
  { intros j c Hj Hc. destruct (decide (j < cp_idx)%nat) as [Hlt|Hge].
    - exact (Hbefore j c Hlt Hc).
    - apply (H1 (j - cp_idx)%nat c); [unfold k in Hj; lia|].
      rewrite lookup_drop. replace (cp_idx + (j - cp_idx))%nat with j by lia.
      exact Hc. }
  destruct (c_points !! k) as [cp|] eqn:Ek.
  - apply list_find_Some. split; [exact Ek|]. split.
    + apply H2. rewrite lookup_drop. exact Ek.
    + intros j c Hc Hj Hn. rewrite (Hall j c Hj Hc) in Hn. discriminate.
  - apply list_find_None, Forall_lookup. intros j c Hc Hn.
    assert (j < k)%nat.
    { apply lookup_lt_Some in Hc. apply lookup_ge_None in Ek. lia. }
    rewrite (Hall j c H Hc) in Hn. discriminate.
Qed.

(** *** The loop over the objects *)

(** Where every event the loop can append satisfies [P], so does every
    event it returns.  An event is appended for an object within
    [0, length] whose payload is stored; it names a checkpoint the object
    does not skip, or the end of the segment. *)
Lemma events_loop_inv (P : Ev -> Prop) (self : Model)
  (c_points : list (CheckpointId * Q)) (skip_immediate : bool)
  (objs : list (ObjectId * Q)) (cp_idx : nat) (events evs : list Ev) :
  events_loop self c_points skip_immediate objs cp_idx events = Ok evs ->
  Forall P events ->
  (forall obj_id pos o cp,
     (obj_id, pos) ∈ objs -> 0 <= pos -> pos <= length self ->
     objects self !! obj_id = Some o -> cp ∈ c_points ->
     _skip_cond skip_immediate cp pos = false ->
     P (o, cp.1, (cp.2 - pos) / speed self)) ->
  (forall obj_id pos o,
     (obj_id, pos) ∈ objs -> 0 <= pos -> pos <= length self ->
     objects self !! obj_id = Some o ->
     skip_immediate = false \/ pos < length self ->
     P (o, end_of_conveyor, (length self - pos) / speed self)) ->
  Forall P evs.
Proof.
  revert cp_idx events.
  induction objs as [|[obj_id pos] objs IH]; intros cp_idx events H F Hc He.
  - cbn in H. injection H as <-. exact F.
  - cbn [events_loop] in H.
    destruct (Qle_bool 0 pos && Qle_bool pos (length self)) eqn:R;
      [|discriminate]. cbn [negb] in H.
    apply andb_true_iff in R as [R0 R1]. apply Qle_bool_iff in R0, R1.
    set (k := (cp_idx + skip_count skip_immediate pos
                          (drop cp_idx c_points))%nat) in H.
    assert (Hc' : forall obj_id0 pos0 o cp,
      (obj_id0, pos0) ∈ objs -> 0 <= pos0 -> pos0 <= length self ->
      objects self !! obj_id0 = Some o -> cp ∈ c_points ->
      _skip_cond skip_immediate cp pos0 = false ->
      P (o, cp.1, (cp.2 - pos0) / speed self))
      by (intros; eapply Hc; eauto; right; assumption).
    assert (He' : forall obj_id0 pos0 o,
      (obj_id0, pos0) ∈ objs -> 0 <= pos0 -> pos0 <= length self ->
      objects self !! obj_id0 = Some o ->
      skip_immediate = false \/ pos0 < length self ->
      P (o, end_of_conveyor, (length self - pos0) / speed self))
      by (intros; eapply He; eauto; right; assumption).
    destruct (c_points !! k) as [cp|] eqn:Ek.
    + destruct (objects self !! obj_id) as [o|] eqn:Eo; [|discriminate].
      apply (IH _ _ H); [|exact Hc'|exact He'].
      apply Forall_app. split; [exact F|]. constructor; [|constructor].
      apply (Hc obj_id pos o cp); auto; [left|eapply list_elem_of_lookup_2, Ek|].
      destruct (skip_count_spec skip_immediate pos (drop cp_idx c_points))
        as [_ H2].
      apply H2. rewrite lookup_drop. exact Ek.
    + destruct (negb skip_immediate || Qlt_bool pos (length self)) eqn:Eend.
      * destruct (objects self !! obj_id) as [o|] eqn:Eo; [|discriminate].
        apply (IH _ _ H); [|exact Hc'|exact He'].
        apply Forall_app. split; [exact F|]. constructor; [|constructor].
        apply (He obj_id pos o); auto; [left|].
        apply orb_true_iff in Eend as [Hn|Hl].
        -- left. destruct skip_immediate; [discriminate|reflexivity].
        -- right. apply Qlt_bool_iff, Hl.
      * apply (IH _ _ H); [exact F|exact Hc'|exact He'].
Qed.


(** On positions in ascending order the shared cursor finds for every
    object what a search of its own finds. *)
Lemma events_loop_independent (self : Model)
  (c_points : list (CheckpointId * Q)) (skip_immediate : bool)
  (objs : list (ObjectId * Q)) (cp_idx : nat) (events evs : list Ev) :
  StronglySorted pos_le objs ->
  (forall e j c, e ∈ objs -> (j < cp_idx)%nat -> c_points !! j = Some c ->
     _skip_cond skip_immediate c e.2 = true) ->
  events_loop self c_points skip_immediate objs cp_idx events = Ok evs ->
  evs = events ++
        omap (fun e : ObjectId * Q =>
                o ← objects self !! e.1;
                event_for self c_points skip_immediate o e.2) objs.
Proof.
  intros Hs. revert cp_idx events.
  induction Hs as [|[obj_id pos] objs Hs IH Hle]; intros cp_idx events Hb H.
  - cbn in H. injection H as <-. cbn. rewrite app_nil_r. reflexivity.
  - cbn [events_loop] in H.
    destruct (negb (Qle_bool 0 pos && Qle_bool pos (length self)));
      [discriminate|].
    set (k := (cp_idx + skip_count skip_immediate pos
                          (drop cp_idx c_points))%nat) in H.
    assert (Hfirst :
      list_find (fun cp => _skip_cond skip_immediate cp pos = false) c_points =
      match c_points !! k with
      | Some cp => Some (k, cp)
      | None => None
      end).
    { apply cursor_is_first. intros j c Hj Hc.
      apply (Hb (obj_id, pos) j c); [left|exact Hj|exact Hc]. }
    assert (Hb' : forall e j c, e ∈ objs -> (j < k)%nat ->
                  c_points !! j = Some c ->
                  _skip_cond skip_immediate c e.2 = true).
    { intros e j c He Hj Hc.
      destruct (decide (j < cp_idx)%nat) as [Hlt|Hge].
      - apply (Hb e j c); [right; exact He|exact Hlt|exact Hc].
      - apply skip_cond_mono with (pos := pos).
        + exact (proj1 (Forall_forall _ _) Hle e He).
        + destruct (skip_count_spec skip_immediate pos
                      (drop cp_idx c_points)) as [H1 _].
          apply (H1 (j - cp_idx)%nat c); [unfold k in Hj; lia|].
          rewrite lookup_drop.
          replace (cp_idx + (j - cp_idx))%nat with j by lia. exact Hc. }
    cbn [omap list_omap fst snd]. unfold event_for at 1. rewrite Hfirst.
    destruct (c_points !! k) as [cp|].
    + destruct (objects self !! obj_id) as [o|]; [|discriminate].
      cbn [mbind option_bind]. rewrite (IH _ _ Hb' H), <- app_assoc.
      reflexivity.
    + destruct (negb skip_immediate || Qlt_bool pos (length self)).
      * destruct (objects self !! obj_id) as [o|]; [|discriminate].
        cbn [mbind option_bind]. rewrite (IH _ _ Hb' H), <- app_assoc.
        reflexivity.
      * rewrite (IH _ _ Hb' H).
        destruct (objects self !! obj_id); reflexivity.
Qed.

(** With every payload stored, the loop fails exactly when a position is
    outside [0, length], on the assertion. *)
Lemma events_loop_outcome (self : Model)
  (c_points : list (CheckpointId * Q)) (skip_immediate : bool)
  (objs : list (ObjectId * Q)) (cp_idx : nat) (events : list Ev) :
  Forall (fun e : ObjectId * Q => is_Some (objects self !! e.1)) objs ->
  (Forall (fun e : ObjectId * Q => 0 <= e.2 /\ e.2 <= length self) objs ->
   exists evs,
     events_loop self c_points skip_immediate objs cp_idx events = Ok evs) /\
  (~ Forall (fun e : ObjectId * Q => 0 <= e.2 /\ e.2 <= length self) objs ->
   events_loop self c_points skip_immediate objs cp_idx events =
     Raise (AssertionError
       "`nextEvents` on conveyor with undefined object positions!")).
Proof.
  revert cp_idx events.
  induction objs as [|[obj_id pos] objs IH]; intros cp_idx events Hs.
  - split; [intros _; eexists; reflexivity|].
    intros H. exfalso. apply H. constructor.
  - apply Forall_cons in Hs as [[o Ho] Hs]. cbn in Ho.
    cbn [events_loop]. rewrite Ho.
    destruct (Qle_bool 0 pos && Qle_bool pos (length self)) eqn:R;
      cbn [negb].
    + apply andb_true_iff in R as [R0 R1]. apply Qle_bool_iff in R0, R1.
      assert (Hrest : forall k evs0,
        (Forall (fun e : ObjectId * Q => 0 <= e.2 /\ e.2 <= length self)
           ((obj_id, pos) :: objs) ->
         exists evs,
           events_loop self c_points skip_immediate objs k evs0 = Ok evs) /\
        (~ Forall (fun e : ObjectId * Q => 0 <= e.2 /\ e.2 <= length self)
             ((obj_id, pos) :: objs) ->
         events_loop self c_points skip_immediate objs k evs0 =
           Raise (AssertionError
             "`nextEvents` on conveyor with undefined object positions!"))).
      { intros k evs0. destruct (IH k evs0 Hs) as [I1 I2]. split.
        - intros F. apply Forall_cons in F as [_ F]. exact (I1 F).
        - intros N. apply I2. intros F. apply N. constructor; [|exact F].
          cbn. split; assumption. }
      destruct (c_points !! _); [apply Hrest|].
      destruct (negb skip_immediate || Qlt_bool pos (length self));
        apply Hrest.
    + split.
      * intros F. apply Forall_cons in F as [[F0 F1] _]. cbn in F0, F1.
        apply Qle_bool_iff in F0, F1. rewrite F0, F1 in R. discriminate.
      * reflexivity.
Qed.

(** *** [nextEvents] and [immediateEvents] *)

(** [nextEvents], statement by statement: it never assigns to [self]. *)
Lemma nextEvents_eq (obj : option (list ObjectId))
  (cps : option (list CheckpointId)) (skip_immediate : bool) (m : Model) :
  nextEvents obj cps skip_immediate m =
  if Qeq_bool (speed m) 0 then (Ok [], m)
  else
    match events_loop m (selected_checkpoints cps m) skip_immediate
            (selected_objects obj m) 0%nat [] with
    | Ok events => (Ok (sorted_by_time events), m)
    | Raise e => (Raise e, m)
    end.
Proof.
  unfold nextEvents. unfold_meth.
  destruct (Qeq_bool (speed m) 0); [reflexivity|].
  destruct (events_loop _ _ _ _ _ _); reflexivity.
Qed.


Lemma selected_objects_sorted (obj : option (list ObjectId)) (m : Model) :
  sorted_positions m -> StronglySorted pos_le (selected_objects obj m).
Proof.
  intros Hs. eapply StronglySorted_sublist; [|exact Hs].
  apply sublist_filter.
Qed.

Lemma Forall_sorted_by_time (P : Ev -> Prop) (l : list Ev) :
  Forall P l -> Forall P (sorted_by_time l).
Proof. rewrite sorted_by_time_perm. auto. Qed.

Lemma nextEvents_events (obj : option (list ObjectId))
  (cps : option (list CheckpointId)) (skip_immediate : bool) (m m' : Model)
  (evs : list Ev) :
  nextEvents obj cps skip_immediate m = (Ok evs, m') ->
  m' = m /\
  (speed m == 0 /\ evs = [] \/
   ~ speed m == 0 /\
   exists events,
     events_loop m (selected_checkpoints cps m) skip_immediate
       (selected_objects obj m) 0%nat [] = Ok events /\
     evs = sorted_by_time events).
Proof.
  rewrite nextEvents_eq. destruct (Qeq_bool (speed m) 0) eqn:E.
  - intros H. injection H as <- <-. split; [reflexivity|].
    left. split; [apply Qeq_bool_iff, E|reflexivity].
  - destruct (events_loop _ _ _ _ _ _) as [events|e] eqn:El; [|discriminate].
    intros H. injection H as <- <-. split; [reflexivity|].
    right. split; [apply Qeq_bool_neq, E|]. eauto.
Qed.

(** Where the events of [nextEvents] come from. *)
Lemma nextEvents_provenance (obj : option (list ObjectId))
  (cps : option (list CheckpointId)) (skip_immediate : bool) (m m' : Model)
  (evs : list Ev) :
  nextEvents obj cps skip_immediate m = (Ok evs, m') ->
  m' = m /\ Forall (event_of m obj cps skip_immediate) evs.
Proof.
  intros H. apply nextEvents_events in H as [-> [[_ ->]|(_ & events & El & ->)]];
    (split; [reflexivity|]); [constructor|].
  apply Forall_sorted_by_time.
  apply (events_loop_inv _ _ _ _ _ _ _ _ El); [constructor| |].
  - intros obj_id pos o cp Hin H0 H1 Ho Hcp Hskip.
    exists obj_id, pos. repeat split; try assumption.
    left. exists cp. repeat split; assumption.
  - intros obj_id pos o Hin H0 H1 Ho Hend.
    exists obj_id, pos. repeat split; try assumption.
    right. repeat split; assumption.
Qed.

(** X11: [nextEvents] leaves the model as it is, and every event it returns
    carries the payload of a selected object that lies within [0, length],
    together with a selected checkpoint that object does not skip and the
    time [(cp_pos - pos) / speed], or with [('conv_end', -1)] and the time
    [(length - pos) / speed]. *)
Theorem nextEvents_sound (obj : option (list ObjectId))
  (cps : option (list CheckpointId)) (skip_immediate : bool) (m m' : Model)
  (evs : list Ev) :
  nextEvents obj cps skip_immediate m = (Ok evs, m') ->
  m' = m /\ Forall (event_of m obj cps skip_immediate) evs.
Proof. apply nextEvents_provenance. Qed.


(** The merge pass against a search per object. *)
Lemma nextEvents_merge (obj : option (list ObjectId))
  (cps : option (list CheckpointId)) (skip_immediate : bool) (m m' : Model)
  (evs : list Ev) :
  sorted_positions m ->
  ~ speed m == 0 ->
  nextEvents obj cps skip_immediate m = (Ok evs, m') ->
  evs = sorted_by_time
          (omap (fun e : ObjectId * Q =>
                   o ← objects m !! e.1;
                   event_for m (selected_checkpoints cps m) skip_immediate
                     o e.2)
             (selected_objects obj m)).
Proof.
  intros Hs Hnz H.
  apply nextEvents_events in H as [_ [[Hz _]|(_ & events & El & ->)]];
    [contradiction|].
  f_equal.
  apply (events_loop_independent m _ skip_immediate _ 0%nat [] events) in El.
  - exact El.
  - apply selected_objects_sorted, Hs.
  - intros e j c _ Hj. lia.
Qed.


(** X14: with consistent identifiers, [nextEvents] at a speed
    other than 0 returns exactly when every selected object lies within
    [0, length] and otherwise fails its assertion; at speed 0 it returns
    the empty list without looking at any position.  The model is never
    changed. *)
Theorem nextEvents_outcome (obj : option (list ObjectId))
  (cps : option (list CheckpointId)) (skip_immediate : bool) (m : Model) :
  ids_consistent m ->
  (speed m == 0 -> nextEvents obj cps skip_immediate m = (Ok [], m)) /\
  (~ speed m == 0 ->
   Forall (fun e : ObjectId * Q => 0 <= e.2 /\ e.2 <= length m)
     (selected_objects obj m) ->
   exists evs, nextEvents obj cps skip_immediate m = (Ok evs, m)) /\
  (~ speed m == 0 ->
   ~ Forall (fun e : ObjectId * Q => 0 <= e.2 /\ e.2 <= length m)
       (selected_objects obj m) ->
   nextEvents obj cps skip_immediate m =
     (Raise (AssertionError
        "`nextEvents` on conveyor with undefined object positions!"), m)).
Proof.
  intros C. rewrite nextEvents_eq.
  assert (Hstored : Forall (fun e : ObjectId * Q => is_Some (objects m !! e.1))
                      (selected_objects obj m)).
  { apply Forall_forall. intros e He. apply consistent_lookup; [exact C|].
    unfold selected_objects in He. apply list_elem_of_filter in He as [_ He].
    exact He. }
  destruct (events_loop_outcome m (selected_checkpoints cps m) skip_immediate
              (selected_objects obj m) 0%nat [] Hstored) as [H1 H2].
  split; [|split].
  - intros Hz. apply Qeq_bool_iff in Hz. rewrite Hz. reflexivity.
  - intros Hnz F. destruct (Qeq_bool (speed m) 0) eqn:E;
      [apply Qeq_bool_iff in E; contradiction|].
    destruct (H1 F) as [evs ->]. eauto.
  - intros Hnz F. destruct (Qeq_bool (speed m) 0) eqn:E;
      [apply Qeq_bool_iff in E; contradiction|].
    rewrite (H2 F). reflexivity.
Qed.

Lemma sorted_lookup_rel {X} (R : relation X) (l : list X) (j k : nat)
  (a b : X) :
  StronglySorted R l -> l !! j = Some a -> l !! k = Some b -> (j < k)%nat ->
  R a b.
Proof.
  intros Hs. revert j k. induction Hs as [|x l Hs IH F]; intros j k Hj Hk L.
  - discriminate.
  - destruct k as [|k]; [lia|]. destruct j as [|j].
    + cbn in Hj, Hk. injection Hj as <-.
      exact (Forall_lookup_1 _ _ _ _ F Hk).
    + cbn in Hj, Hk. apply (IH j k Hj Hk). lia.
Qed.

Lemma immediateEvents_eq (obj : option (list ObjectId))
  (cps : option (list CheckpointId)) (m : Model) :
  immediateEvents obj cps m =
  match nextEvents obj cps false m with
  | (Ok events, m') => (Ok (filter (fun ev : Ev => ev.2 == 0) events), m')
  | (Raise e, m') => (Raise e, m')
  end.
Proof. reflexivity. Qed.


(** X16: on a position store in ascending
    order and checkpoints in strictly ascending order (as [__init__] leaves
    them), at a speed other than 0, a selected object that sits exactly on
    a selected checkpoint gets an immediate event for that checkpoint, with
    its own payload. *)
Theorem immediateEvents_complete (obj : option (list ObjectId))
  (cps : option (list CheckpointId)) (m m' : Model) (evs : list Ev)
  (obj_id : ObjectId) (pos : Q) (o : Payload) (c : CheckpointId)
  (cp_pos : Q) :
  sorted_positions m ->
  StronglySorted (fun a b : CheckpointId * Q => a.2 < b.2) (checkpoints m) ->
  ~ speed m == 0 ->
  immediateEvents obj cps m = (Ok evs, m') ->
  (obj_id, pos) ∈ selected_objects obj m ->
  objects m !! obj_id = Some o ->
  (c, cp_pos) ∈ selected_checkpoints cps m ->
  cp_pos == pos ->
  exists t, t == 0 /\ (o, c, t) ∈ evs.
Proof.
  intros Hs Hc Hnz H Hin Ho Hcp Heq.
  rewrite immediateEvents_eq in H.
  destruct (nextEvents obj cps false m) as [[events|e] m0] eqn:Hn;
    [|discriminate].
  injection H as <- <-.
  apply (nextEvents_merge _ _ _ _ _ _ Hs Hnz) in Hn.
  exists ((cp_pos - pos) / speed m).
  assert (Ht : (cp_pos - pos) / speed m == 0).
  { unfold Qdiv. rewrite Heq. ring. }
  split; [exact Ht|].
  apply list_elem_of_filter. split; [exact Ht|].
  rewrite Hn, sorted_by_time_perm. apply list_elem_of_omap.
  exists (obj_id, pos). split; [exact Hin|]. cbn [fst snd].
  rewrite Ho. cbn [mbind option_bind]. unfold event_for.
  assert (Hsel : StronglySorted (fun a b : CheckpointId * Q => a.2 < b.2)
                   (selected_checkpoints cps m)).
  { eapply StronglySorted_sublist; [|exact Hc]. apply sublist_filter. }
  apply list_elem_of_lookup in Hcp as [i Hi].
  assert (Hfind : list_find (fun cp => _skip_cond false cp pos = false)
                    (selected_checkpoints cps m) = Some (i, (c, cp_pos))).
  { apply list_find_Some. split; [exact Hi|]. split.
    - cbn. apply Qlt_bool_false. lra.
    - intros j y Hy Hj Hn'. cbn in Hn'. apply Qlt_bool_false in Hn'.
      pose proof (sorted_lookup_rel _ _ _ _ _ _ Hsel Hy Hi Hj) as Hlt.
      cbn in Hlt. lra. }
  rewrite Hfind. reflexivity.
Qed.

End EventFacts.

(** ** What every call keeps *)

Section Frames.

Context {Payload : Type}.

#[local] Abbreviation Model := (ConveyorModel Payload).

Local Open Scope Q_scope.

Ltac frame_done :=
  let H := fresh in
  intros H; injection H as _ <-; (split; [repeat split|left; reflexivity]).

Lemma skipTime_frame (m m' : Model) (t : Q) (clean_ends : bool)
  (r : Outcome Payload Q) :
  skipTime t clean_ends m = (r, m') ->
  same_geometry m m' /\ speed m' = speed m /\
  _resume_time m' = _resume_time m.
Proof.
  intros H. destruct (Qeq_dec t 0) as [Z|NZ].
  - rewrite (skipTime_zero m t clean_ends Z) in H. injection H as _ <-.
    repeat split.
  - destruct (skipTime_shape m t clean_ends NZ)
      as (r1 & ps' & objs' & Hr1 & _ & Heq).
    cbn zeta in Heq. rewrite Heq in H.
    destruct Hr1 as [-> | ->];
      [destruct (_model_automata (_state m) change)|];
      injection H as _ <-; repeat split.
Qed.

Lemma run_frame (m m' : Model) (op : Op Payload)
  (r : Outcome Payload (Value Payload)) :
  run op m = (r, m') ->
  same_geometry m m' /\
  (speed m' = speed m \/ 0 <= speed m' /\ speed m' <= max_speed m).
Proof.
  destruct op; cbn [run]; rewrite bind_eq.
  - rewrite setSpeed_eq.
    destruct (Qle_bool 0 v && Qle_bool v (max_speed m)) eqn:R;
      [|frame_done].
    destruct (negb (Qeq_bool (speed m) v)); [|frame_done].
    destruct (_model_automata (_state m) change); [|frame_done].
    intros H; injection H as _ <-. split; [repeat split|].
    right. apply andb_true_iff in R as [R0 R1].
    apply Qle_bool_iff in R0, R1. split; assumption.
  - destruct (putObject_shape m obj_id obj pos) as [(e & _ & ->)|(n & ->)];
      [frame_done|].
    destruct (_model_automata (_state m) change); frame_done.
  - rewrite removeObject_eq.
    destruct (list_find _ (object_positions m)) as [[i e]|]; [|frame_done].
    cbn zeta. destruct (objects m !! obj_id);
      [destruct (_model_automata (_state m) change)|]; frame_done.
  - destruct (skipTime time clean_ends m) as [r0 m0'] eqn:Es.
    apply skipTime_frame in Es as (G & Sp & _).
    destruct r0; intros H; injection H as _ <-; auto.
  - rewrite resume_eq.
    destruct (_model_automata (_state m) resume_); frame_done.
  - rewrite pause_eq.
    destruct (_model_automata (_state m) pause_) as [s|]; [|frame_done].
    destruct (Qle_bool 0 (time - _resume_time m)); [|frame_done].
    destruct (skipTime _ true (set_state s m)) as [r0 m0'] eqn:Es.
    apply skipTime_frame in Es as (G & Sp & _).
    destruct r0; intros H; injection H as _ <-; auto.
  - unfold startResolving. rewrite stateTransfer_eq.
    destruct (_model_automata (_state m) start_resolving); frame_done.
  - unfold endResolving. rewrite stateTransfer_eq.
    destruct (_model_automata (_state m) end_resolving); frame_done.
  - unfold checkpointPos. unfold_meth.
    destruct (String.eqb cp.1 conv_end);
      [|destruct (checkpoint_positions m !! cp)]; frame_done.
  - unfold nearestObject. unfold_meth.
    destruct (search_pos (object_positions m) pos) as [found|e];
      [destruct (objects m !! found.1.1)|]; frame_done.
  - frame_done.
  - frame_done.
  - frame_done.
Qed.

Lemma same_geometry_trans (m1 m2 m3 : Model) :
  same_geometry m1 m2 -> same_geometry m2 m3 -> same_geometry m1 m3.
Proof.
  unfold same_geometry. intros (A1 & A2 & A3 & A4 & A5) (B1 & B2 & B3 & B4 & B5).
  repeat split; congruence.
Qed.

(** X4: no call, returning or raising, and no sequence of calls
    changes the identity of the model, the checkpoints, the table of their
    positions, the length or the maximal speed. *)
Theorem geometry_never_changes (ops : list (Op Payload)) (m : Model) :
  same_geometry m (calls ops m).
Proof.
  revert m. induction ops as [|op ops IH]; intros m.
  - repeat split.
  - cbn [calls foldl]. fold (calls ops (run op m).2).
    eapply same_geometry_trans; [|apply IH].
    destruct (run op m) as [r m'] eqn:H. apply run_frame in H as [G _].
    exact G.
Qed.

(** X5: a speed within [0, max_speed] stays within it through every
    sequence of calls, whether they return or raise; so it is within it in
    every model the interface produces. *)
Theorem speed_stays_in_range (m : Model) :
  (0 <= speed m /\ speed m <= max_speed m ->
   forall ops, 0 <= speed (calls ops m) /\
               speed (calls ops m) <= max_speed (calls ops m)) /\
  (reachable m -> 0 <= speed m /\ speed m <= max_speed m).
Proof.
  assert (Hstep : forall (m0 m0' : Model) op r,
    run op m0 = (r, m0') ->
    0 <= speed m0 /\ speed m0 <= max_speed m0 ->
    0 <= speed m0' /\ speed m0' <= max_speed m0').
  { intros m0 m0' op r H [H0 H1].
    apply run_frame in H as [(_ & _ & _ & _ & Hmax) [Hs|[Hs0 Hs1]]];
      rewrite Hmax; [rewrite Hs; auto|auto]. }
  split.
  - intros Hin ops. revert m Hin.
    induction ops as [|op ops IH]; intros m Hin; [exact Hin|].
    cbn [calls foldl]. apply IH.
    destruct (run op m) as [r m'] eqn:H. exact (Hstep _ _ _ _ H Hin).
  - induction 1 as [len ms cps mid m H|m op r m' _ IH H].
    + destruct (init_invariants _ _ _ _ _ H) as (_ & _ & _ & _ & Hs).
      rewrite Hs. unfold __init__ in H.
      destruct (negb (Qlt_bool 0 len)); [discriminate|].
      destruct (negb (Qlt_bool 0 ms)) eqn:E; [discriminate|].
      apply negb_false_iff, Qlt_bool_iff in E.
      assert (max_speed m = ms).
      { repeat match type of H with
               | (if ?b then _ else _) = _ => destruct b; [discriminate|]
               | match ?x with _ => _ end = _ => destruct x
               end; inversion H; reflexivity. }
      split; [lra|]. rewrite H0. lra.
    + exact (Hstep _ _ _ _ H IH).
Qed.

(** X6: in [moving], a call other than [pause] that
    returns normally has changed nothing at all. *)
Theorem moving_freezes_model (m m' : Model) (op : Op Payload)
  (v : Value Payload) :
  _state m = moving ->
  (forall t, op <> OPause t) ->
  run op m = (Ok v, m') ->
  m' = m.
Proof.
  intros Hst Hop. destruct op; cbn [run]; rewrite bind_eq.
  - rewrite setSpeed_eq, Hst.
    destruct (Qle_bool 0 v0 && Qle_bool v0 (max_speed m)); [|discriminate].
    destruct (negb (Qeq_bool (speed m) v0)); [discriminate|].
    intros H; injection H as _ <-; reflexivity.
  - destruct (putObject_shape m obj_id obj pos) as [(e & _ & ->)|(n & ->)];
      [discriminate|]. rewrite Hst. discriminate.
  - rewrite removeObject_eq, Hst.
    destruct (list_find _ (object_positions m)) as [[i e]|]; [|discriminate].
    cbn zeta. destruct (objects m !! obj_id); discriminate.
  - destruct (Qeq_dec time 0) as [Z|NZ].
    + rewrite (skipTime_zero m time clean_ends Z).
      intros H; injection H as _ <-; reflexivity.
    + destruct (skipTime_shape m time clean_ends NZ)
        as (r1 & ps' & objs' & Hr1 & _ & ->).
      rewrite Hst. destruct Hr1 as [-> | ->]; discriminate.
  - rewrite resume_eq, Hst. discriminate.
  - exfalso. exact (Hop time eq_refl).
  - unfold startResolving. rewrite stateTransfer_eq, Hst. discriminate.
  - unfold endResolving. rewrite stateTransfer_eq, Hst. discriminate.
  - unfold checkpointPos. unfold_meth.
    destruct (String.eqb cp.1 conv_end);
      [|destruct (checkpoint_positions m !! cp)]; try discriminate;
      intros H; injection H as _ <-; reflexivity.
  - unfold nearestObject. unfold_meth.
    destruct (search_pos (object_positions m) pos) as [found|e];
      [destruct (objects m !! found.1.1)|]; try discriminate;
      intros H; injection H as _ <-; reflexivity.
  - intros H; injection H as _ <-; reflexivity.
  - intros H; injection H as _ <-; reflexivity.
  - intros H; injection H as _ <-; reflexivity.
Qed.

End Frames.

(** ** The constructor and the checkpoint table *)

Section Construction.

Context {Payload : Type}.

#[local] Abbreviation Model := (ConveyorModel Payload).
#[local] Abbreviation cp_lt :=
  (fun a b : CheckpointId * Q => a.2 < b.2).
#[local] Abbreviation cp_le :=
  (fun a b : CheckpointId * Q => a.2 <= b.2).

Local Open Scope Q_scope.

Lemma insert_by_pos_perm (c : CheckpointId * Q)
  (l : list (CheckpointId * Q)) :
  insert_by_pos c l ≡ₚ c :: l.
Proof.
  induction l as [|c' l IH]; cbn [insert_by_pos]; [reflexivity|].
  destruct (Qlt_bool c.2 c'.2); [reflexivity|].
  rewrite IH. apply Permutation_swap.
Qed.

Lemma sorted_by_pos_perm (l : list (CheckpointId * Q)) :
  sorted_by_pos l ≡ₚ l.
Proof.
  induction l as [|c l IH]; [reflexivity|].
  cbn [sorted_by_pos foldr]. rewrite insert_by_pos_perm.
  apply Permutation_skip, IH.
Qed.

Lemma insert_by_pos_sorted (c : CheckpointId * Q)
  (l : list (CheckpointId * Q)) :
  StronglySorted cp_le l -> StronglySorted cp_le (insert_by_pos c l).
Proof.
  induction 1 as [|c' l Hs IH F]; cbn [insert_by_pos].
  - repeat constructor.
  - destruct (Qlt_bool c.2 c'.2) eqn:E.
    + apply Qlt_bool_iff in E. constructor; [constructor; assumption|].
      constructor; [cbn; lra|].
      eapply Forall_impl; [exact F|]. intros x Hx. cbn in *. lra.
    + apply Qlt_bool_false in E. constructor; [exact IH|].
      rewrite insert_by_pos_perm. constructor; [exact E|exact F].
Qed.

Lemma sorted_by_pos_sorted (l : list (CheckpointId * Q)) :
  StronglySorted cp_le (sorted_by_pos l).
Proof.
  induction l as [|c l IH]; [constructor|].
  apply insert_by_pos_sorted, IH.
Qed.

(** The loop of assertions over adjacent checkpoints decides strict
    ascent. *)
Lemma strictly_increasing_sorted (l : list (CheckpointId * Q)) :
  strictly_increasing l = true <-> StronglySorted cp_lt l.
Proof.
  induction l as [|c [|c' l] IH].
  - split; [constructor|reflexivity].
  - split; [repeat constructor|reflexivity].
  - cbn [strictly_increasing]. rewrite andb_true_iff, Qlt_bool_iff, IH.
    split.
    + intros [Hlt Hs]. constructor; [exact Hs|].
      constructor; [exact Hlt|].
      apply StronglySorted_cons in Hs as [F _].
      eapply Forall_impl; [exact F|]. intros x Hx. cbn in *. lra.
    + intros Hs. apply StronglySorted_cons in Hs as [F Hs].
      split; [|exact Hs]. apply Forall_cons in F as [Hlt _]. exact Hlt.
Qed.

Lemma sorted_head_least (l : list (CheckpointId * Q))
  (c0 : CheckpointId * Q) :
  StronglySorted cp_le l -> head l = Some c0 ->
  Forall (fun c => c0.2 <= c.2) l.
Proof.
  intros Hs Hh. destruct l as [|c l]; [discriminate|].
  injection Hh as ->. apply StronglySorted_cons in Hs as [F _].
  constructor; [apply Qle_refl|exact F].
Qed.

Lemma sorted_last_greatest (l : list (CheckpointId * Q))
  (cn : CheckpointId * Q) :
  StronglySorted cp_le l -> last l = Some cn ->
  Forall (fun c => c.2 <= cn.2) l.
Proof.
  induction 1 as [|c l Hs IH F]; intros Hl; [constructor|].
  destruct l as [|c' l].
  - injection Hl as ->. constructor; [apply Qle_refl|constructor].
  - assert (Hl' : last (c' :: l) = Some cn) by exact Hl.
    constructor; [|exact (IH Hl')].
    apply (proj1 (Forall_forall _ _) F). apply last_Some_elem_of, Hl'.
Qed.

Lemma cp_lt_le_sorted (l : list (CheckpointId * Q)) :
  StronglySorted cp_lt l -> StronglySorted cp_le l.
Proof.
  induction 1 as [|c l Hs IH F]; constructor; [exact IH|].
  eapply Forall_impl; [exact F|]. intros x. apply Qlt_le_weak.
Qed.

(** [__init__], assertion by assertion. *)
Lemma init_eq (len ms : Q) (cps : list (CheckpointId * Q)) (mid : AgentId)
  (m : Model) :
  __init__ len ms cps mid = Ok m <->
  0 < len /\ 0 < ms /\
  Forall (fun c : CheckpointId * Q => 0 <= c.2 /\ c.2 < len)
    (sorted_by_pos cps) /\
  StronglySorted cp_lt (sorted_by_pos cps) /\
  m = mkModel mid (sorted_by_pos cps)
        (foldl (fun d c => <[c.1 := c.2]> d) ∅ (sorted_by_pos cps))
        len ms pristine 0 0 ∅ [].
Proof.
  unfold __init__.
  destruct (Qlt_bool 0 len) eqn:El; cbn [negb].
  2:{ split; [discriminate|]. intros (H & _). apply Qlt_bool_iff in H.
      congruence. }
  destruct (Qlt_bool 0 ms) eqn:Em; cbn [negb].
  2:{ split; [discriminate|]. intros (_ & H & _). apply Qlt_bool_iff in H.
      congruence. }
  apply Qlt_bool_iff in El, Em.
  pose proof (sorted_by_pos_sorted cps) as Hsorted.
  destruct (head (sorted_by_pos cps)) as [c0|] eqn:Hh.
  2:{ assert (E : sorted_by_pos cps = [])
        by (destruct (sorted_by_pos cps); [reflexivity|discriminate]).
      rewrite E. cbn. split.
      - intros H. injection H as <-. repeat split; auto; constructor.
      - intros (_ & _ & _ & _ & ->). reflexivity. }
  destruct (last (sorted_by_pos cps)) as [cn|] eqn:Hl.
  2:{ exfalso. apply last_None in Hl. rewrite Hl in Hh. discriminate. }
  pose proof (sorted_head_least _ _ Hsorted Hh) as Hleast.
  pose proof (sorted_last_greatest _ _ Hsorted Hl) as Hgreatest.
  destruct (Qle_bool 0 c0.2) eqn:E0; cbn [negb].
  2:{ split; [discriminate|]. intros (_ & _ & F & _). exfalso.
      assert (c0 ∈ sorted_by_pos cps) by (apply head_Some_elem_of, Hh).
      destruct (proj1 (Forall_forall _ _) F c0 H) as [H0 _].
      apply Qle_bool_iff in H0. congruence. }
  destruct (Qlt_bool cn.2 len) eqn:En; cbn [negb].
  2:{ split; [discriminate|]. intros (_ & _ & F & _). exfalso.
      assert (cn ∈ sorted_by_pos cps) by (apply last_Some_elem_of, Hl).
      destruct (proj1 (Forall_forall _ _) F cn H) as [_ H1].
      apply Qlt_bool_iff in H1. congruence. }
  apply Qle_bool_iff in E0. apply Qlt_bool_iff in En.
  destruct (strictly_increasing (sorted_by_pos cps)) eqn:Es; cbn [negb].
  2:{ split; [discriminate|]. intros (_ & _ & _ & Hs & _).
      apply strictly_increasing_sorted in Hs. congruence. }
  apply strictly_increasing_sorted in Es. split.
  - intros H. injection H as <-. repeat split; auto.
    apply Forall_forall. intros c Hc.
    pose proof (proj1 (Forall_forall _ _) Hleast c Hc).
    pose proof (proj1 (Forall_forall _ _) Hgreatest c Hc).
    cbn in *. split; lra.
  - intros (_ & _ & _ & _ & ->). reflexivity.
Qed.

Lemma strict_iff_distinct (l : list (CheckpointId * Q)) :
  StronglySorted cp_le l ->
  StronglySorted cp_lt l <->
  NoDup l /\ (forall a b, a ∈ l -> b ∈ l -> a.2 == b.2 -> a = b).
Proof.
  intros Hle. split.
  - intros Hlt.
    assert (Hidx : forall i j a b, l !! i = Some a -> l !! j = Some b ->
                   a.2 == b.2 -> i = j).
    { intros i j a b Hi Hj E.
      destruct (Nat.lt_trichotomy i j) as [L|[L|L]]; [|exact L|].
      - pose proof (sorted_lookup_rel _ _ _ _ _ _ Hlt Hi Hj L) as H.
        cbn in H. lra.
      - pose proof (sorted_lookup_rel _ _ _ _ _ _ Hlt Hj Hi L) as H.
        cbn in H. lra. }
    split.
    + apply NoDup_alt. intros i j x Hi Hj.
      apply (Hidx i j x x Hi Hj). reflexivity.
    + intros a b [i Hi]%list_elem_of_lookup [j Hj]%list_elem_of_lookup E.
      pose proof (Hidx i j a b Hi Hj E) as ->. congruence.
  - intros [ND Hinj]. induction Hle as [|c l Hle IH F]; [constructor|].
    apply NoDup_cons in ND as [Hni ND]. constructor.
    + apply IH; [exact ND|]. intros a b Ha Hb.
      apply Hinj; right; assumption.
    + apply Forall_forall. intros x Hx.
      pose proof (proj1 (Forall_forall _ _) F x Hx) as Hcx. cbn in Hcx.
      destruct (proj1 (Qle_lteq _ _) Hcx) as [H|H]; [exact H|].
      exfalso. apply Hni.
      assert (Hc : c ∈ c :: l) by left.
      assert (Hx' : x ∈ c :: l) by (right; exact Hx).
      rewrite (Hinj c x Hc Hx' H). exact Hx.
Qed.

(** X1: when [__init__] returns a model,
    the length and the maximal speed are positive, the stored checkpoints
    are the given ones in strictly ascending order of position, every
    checkpoint lies in [0, length), and the model starts [pristine], at
    speed 0, with no object. *)
Theorem init_establishes_geometry (len ms : Q)
  (cps : list (CheckpointId * Q)) (mid : AgentId) (m : Model) :
  __init__ len ms cps mid = Ok m ->
  0 < length m /\ 0 < max_speed m /\
  length m = len /\ max_speed m = ms /\ model_id m = mid /\
  checkpoints m ≡ₚ cps /\
  StronglySorted (fun a b : CheckpointId * Q => a.2 < b.2) (checkpoints m) /\
  Forall (fun c : CheckpointId * Q => 0 <= c.2 /\ c.2 < length m)
    (checkpoints m) /\
  _state m = pristine /\ speed m = 0 /\ _resume_time m = 0 /\
  objects m = ∅ /\ object_positions m = [].
Proof.
  intros H. apply init_eq in H as (Hl & Hm & F & Hs & ->). cbn.
  repeat split; try assumption. apply sorted_by_pos_perm.
Qed.

(** X2: [__init__] returns a model exactly
    when the length and the maximal speed are positive, every given
    checkpoint lies in [0, length), and no two entries of the given list
    have the same position; otherwise an assertion fails. *)
Theorem init_succeeds_iff (len ms : Q) (cps : list (CheckpointId * Q))
  (mid : AgentId) :
  (exists m : Model, __init__ len ms cps mid = Ok m) <->
  0 < len /\ 0 < ms /\
  Forall (fun c : CheckpointId * Q => 0 <= c.2 /\ c.2 < len) cps /\
  NoDup cps /\
  (forall a b, a ∈ cps -> b ∈ cps -> a.2 == b.2 -> a = b).
Proof.
  pose proof (sorted_by_pos_perm cps) as Hp.
  pose proof (strict_iff_distinct _ (sorted_by_pos_sorted cps)) as Hd.
  split.
  - intros [m H]. apply init_eq in H as (Hl & Hm & F & Hs & _).
    apply Hd in Hs as [ND Hinj].
    split; [exact Hl|]. split; [exact Hm|].
    split; [rewrite <- Hp; exact F|].
    split; [rewrite <- Hp; exact ND|].
    intros a b Ha Hb. apply Hinj; rewrite Hp; assumption.
  - intros (Hl & Hm & F & ND & Hinj). eexists. apply init_eq.
    split; [exact Hl|]. split; [exact Hm|].
    split; [rewrite Hp; exact F|]. split; [|reflexivity].
    apply Hd. split; [rewrite Hp; exact ND|].
    intros a b Ha Hb. apply Hinj; rewrite <- Hp; assumption.
Qed.

(** The table built by the dictionary comprehension: a key has the
    position of its last entry in the list. *)
Lemma table_lookup (l : list (CheckpointId * Q)) (k : CheckpointId) :
  let t := foldl (fun (d : gmap CheckpointId Q) (c : CheckpointId * Q) =>
                    <[c.1 := c.2]> d) ∅ l in
  ((k ∉ l.*1) /\ t !! k = None) \/
  (exists i v, l !! i = Some (k, v) /\ t !! k = Some v /\
               forall j c, (i < j)%nat -> l !! j = Some c -> c.1 <> k).
Proof.
  induction l as [|c l IH] using rev_ind.
  - left. split; [apply not_elem_of_nil|reflexivity].
  - rewrite foldl_app. cbn [foldl]. cbn zeta in IH.
    destruct (decide (c.1 = k)) as [E|N].
    + right. exists (List.length l), c.2. split; [|split].
      * rewrite <- E. destruct c. apply list_lookup_middle. reflexivity.
      * rewrite E. apply lookup_insert_eq.
      * intros j c' Hj Hc'. apply lookup_lt_Some in Hc'.
        rewrite length_app in Hc'. cbn in Hc'. lia.
    + rewrite lookup_insert_ne by exact N.
      destruct IH as [[Hni Hn]|(i & v & Hi & Hv & Hlast)].
      * left. split; [|exact Hn].
        rewrite fmap_app. intros [H|H%list_elem_of_singleton]%elem_of_app;
          [contradiction|]. cbn in H. congruence.
      * right. exists i, v. split; [apply lookup_app_l_Some, Hi|].
        split; [exact Hv|].
        intros j c' Hj Hc'. apply lookup_app_Some in Hc' as [Hc'|[_ Hc']].
        -- exact (Hlast j c' Hj Hc').
        -- apply list_lookup_singleton_Some in Hc' as [_ <-]. exact N.
Qed.

(** X3: in a model [__init__] returned, for an
    identifier whose first component is not ['conv_end'], [checkpointPos]
    raises [KeyError] when no given checkpoint has the identifier, and
    otherwise returns the position of a given checkpoint with it: the
    greatest one when several share the identifier, so the position given
    when the identifiers are unique.  The model is left as it is. *)
Theorem checkpointPos_stored (len ms : Q) (cps : list (CheckpointId * Q))
  (mid : AgentId) (m : Model) (cp : CheckpointId) :
  __init__ len ms cps mid = Ok m ->
  cp.1 <> conv_end ->
  (cp ∉ cps.*1 -> checkpointPos cp m = (Raise KeyError, m)) /\
  (forall p, (cp, p) ∈ cps ->
     exists p', (cp, p') ∈ cps /\ p <= p' /\
                checkpointPos cp m = (Ok p', m)) /\
  (NoDup cps.*1 -> forall p, (cp, p) ∈ cps ->
     checkpointPos cp m = (Ok p, m)).
Proof.
  intros H Hne. apply init_eq in H as (_ & _ & _ & Hs & ->).
  pose proof (sorted_by_pos_perm cps) as Hp.
  assert (E : String.eqb cp.1 conv_end = false)
    by (apply String.eqb_neq, Hne).
  unfold checkpointPos. unfold_meth. cbn [checkpoint_positions length].
  rewrite E.
  assert (Hsome : forall p, (cp, p) ∈ cps ->
    exists p', (cp, p') ∈ cps /\ p <= p' /\
      foldl (fun (d : gmap CheckpointId Q) (c : CheckpointId * Q) =>
               <[c.1 := c.2]> d) ∅ (sorted_by_pos cps) !! cp = Some p').
  { intros p Hin.
    destruct (table_lookup (sorted_by_pos cps) cp)
      as [[Hni _]|(i & v & Hi & Hv & Hlast)].
    - exfalso. apply Hni. rewrite Hp.
      apply (list_elem_of_fmap_2 fst _ (cp, p)), Hin.
    - exists v. split; [|split; [|exact Hv]].
      + rewrite <- Hp. eapply list_elem_of_lookup_2, Hi.
      + rewrite <- Hp in Hin. apply list_elem_of_lookup in Hin as [j Hj].
        destruct (Nat.lt_trichotomy j i) as [L|[L|L]].
        * pose proof (sorted_lookup_rel _ _ _ _ _ _ Hs Hj Hi L) as Hlt.
          cbn in Hlt. lra.
        * subst j. rewrite Hi in Hj. injection Hj as ->. apply Qle_refl.
        * exfalso. exact (Hlast j (cp, p) L Hj eq_refl). }
  split; [|split].
  - intros Hni.
    destruct (table_lookup (sorted_by_pos cps) cp)
      as [[_ ->]|(i & v & Hi & _)]; [reflexivity|].
    exfalso. apply Hni. rewrite <- Hp.
    apply (list_elem_of_fmap_2 fst _ (cp, v)).
    eapply list_elem_of_lookup_2, Hi.
  - intros p Hin. destruct (Hsome p Hin) as (p' & Hin' & Hle & ->). eauto.
  - intros ND p Hin. destruct (Hsome p Hin) as (p' & Hin' & _ & ->).
    assert (p' = p); [|subst; reflexivity].
    apply list_elem_of_lookup in Hin as [i Hi].
    apply list_elem_of_lookup in Hin' as [j Hj].
    assert (i = j).
    { apply (proj1 (NoDup_alt _) ND i j cp);
        rewrite list_lookup_fmap; [rewrite Hi|rewrite Hj]; reflexivity. }
    subst j. rewrite Hi in Hj. congruence.
Qed.

End Construction.

(** ** Placing, removing and moving objects *)

Section Store.

Context {Payload : Type}.

#[local] Abbreviation Model := (ConveyorModel Payload).

Local Open Scope Q_scope.

Lemma filter_all {X} (P : X -> Prop) `{!forall x, Decision (P x)}
  (l : list X) :
  Forall P l -> filter P l = l.
Proof.
  induction 1 as [|x l Hx F IH]; [reflexivity|].
  rewrite filter_cons_True by exact Hx. f_equal. exact IH.
Qed.






(** X7: with consistent identifiers, [putObject]
    of an identifier already present fails the assertion and changes
    nothing; when it returns, the identifier was absent, no stored object
    was at the rounded position, the object map has gained exactly the new
    payload, the position store has gained exactly the entry
    [(obj_id, round(pos, 5))] at one index, [change] was fired and the
    speed is what it was. *)
Theorem putObject_stores (m : Model) (obj_id : ObjectId) (obj : Payload)
  (pos : Q) :
  ids_consistent m ->
  (objects m !! obj_id <> None ->
   putObject obj_id obj pos m =
     (Raise (AssertionError "Clashing object ID!"), m)) /\
  (forall m', putObject obj_id obj pos m = (Ok tt, m') ->
     objects m !! obj_id = None /\
     Forall (fun e : ObjectId * Q => ~ e.2 == round5 pos)
       (object_positions m) /\
     objects m' = <[obj_id := obj]> (objects m) /\
     (exists n, object_positions m' =
                  take n (object_positions m) ++
                  (obj_id, round5 pos) :: drop n (object_positions m)) /\
     _model_automata (_state m) change = Some (_state m') /\
     speed m' = speed m).
Proof.
  intros C. split; [apply putObject_clash|].
  intros m' H. destruct (objects m !! obj_id) as [o|] eqn:L.
  { rewrite putObject_clash in H by congruence. discriminate. }
  destruct (putObject_exec m obj_id obj pos C L)
    as [(e & other & _ & _ & _ & Heq)|(F & n & _ & Heq)];
    rewrite Heq in H; [discriminate|].
  destruct (_model_automata (_state m) change) as [s|]; [|discriminate].
  injection H as <-. cbn. repeat split; try assumption.
  exists n. reflexivity.
Qed.

Lemma delete_is_filter (l : list (ObjectId * Q)) (i : nat)
  (e : ObjectId * Q) :
  NoDup l.*1 -> l !! i = Some e ->
  delete i l = filter (fun x : ObjectId * Q => x.1 <> e.1) l.
Proof.
  intros ND Hi. rewrite delete_take_drop.
  rewrite <- (take_drop_middle l i e Hi) in ND |- * at 3.
  rewrite fmap_app, fmap_cons in ND.
  apply NoDup_app in ND as (_ & Hdisj & ND2).
  apply NoDup_cons in ND2 as (Hni & _).
  rewrite filter_app, filter_cons_False by (intros H; apply H; reflexivity).
  rewrite !filter_all; [reflexivity| |].
  - apply Forall_forall. intros x Hx Heq. apply Hni. rewrite <- Heq.
    apply list_elem_of_fmap_2, Hx.
  - apply Forall_forall. intros x Hx Heq.
    apply (Hdisj x.1); [apply list_elem_of_fmap_2, Hx|].
    rewrite Heq. left.
Qed.

(** X8: with consistent identifiers,
    [removeObject] of an absent identifier raises [TypeError] (the
    [list.pop(None)]) and changes nothing; when it returns, it returns the
    stored payload, the object map has lost exactly that key, the position
    store has lost exactly the entries of that identifier and kept the
    others in order, and [change] was fired. *)
Theorem removeObject_removes (m : Model) (obj_id : ObjectId) :
  ids_consistent m ->
  (objects m !! obj_id = None ->
   removeObject obj_id m = (Raise TypeError, m)) /\
  (forall obj m', removeObject obj_id m = (Ok obj, m') ->
     objects m !! obj_id = Some obj /\
     objects m' = delete obj_id (objects m) /\
     object_positions m' =
       filter (fun e : ObjectId * Q => e.1 <> obj_id) (object_positions m) /\
     (obj_id ∉ ids m') /\
     _model_automata (_state m) change = Some (_state m') /\
     speed m' = speed m).
Proof.
  intros C. rewrite removeObject_eq. split.
  - intros L.
    destruct (list_find _ (object_positions m)) as [[i e]|] eqn:F;
      [|reflexivity].
    exfalso. apply list_find_Some in F as (Hi & He & _).
    apply (consistent_absent m obj_id C L). rewrite <- He.
    apply list_elem_of_fmap_2. eapply list_elem_of_lookup_2, Hi.
  - intros obj m'.
    destruct (list_find _ (object_positions m)) as [[i e]|] eqn:F;
      [|discriminate].
    apply list_find_Some in F as (Hi & He & _). cbn zeta.
    destruct (objects m !! obj_id) as [o|]; [|discriminate].
    destruct (_model_automata (_state m) change) as [s|]; [|discriminate].
    intros H. injection H as <- <-. cbn.
    pose proof (delete_is_filter _ _ _ (proj1 C) Hi) as Hd.
    rewrite He in Hd.
    repeat split; try assumption.
    unfold ids. cbn. rewrite Hd.
    intros (x & Hx & Hin)%list_elem_of_fmap.
    apply list_elem_of_filter in Hin as [Hne _]. congruence.
Qed.


(** [skipTime] reads neither the automaton's resume time nor writes it. *)
Lemma skipTime_resume_time (m : Model) (t t0 : Q) (clean_ends : bool) :
  skipTime t clean_ends (set_resume_time t0 m) =
  ((skipTime t clean_ends m).1,
   set_resume_time t0 (skipTime t clean_ends m).2).
Proof.
  unfold skipTime. destruct (Qeq_bool t 0); [reflexivity|].
  unfold_meth. unfold clean_low, clean_high.
  cbn [object_positions objects set_object_positions set_objects length
       set_resume_time speed].
  destruct clean_ends.
  - destruct (pop_while _ _ _) as [[[[]|e1] ps1] o1];
      cbn [object_positions objects set_object_positions set_objects length
           set_resume_time speed]; [|reflexivity].
    destruct (pop_while _ _ _) as [[[[]|e2] ps2] o2]; [|reflexivity].
    rewrite !stateTransfer_eq. cbn.
    destruct (_model_automata (_state m) change); reflexivity.
  - rewrite !stateTransfer_eq. cbn.
    destruct (_model_automata (_state m) change); reflexivity.
Qed.

(** X10: from [pristine], [resume(t0)]
    followed by [pause(t)] with [t0 <= t] returns or raises as
    [skipTime(t - t0)] does on the same model, and leaves the model
    [skipTime(t - t0)] leaves, with [t0] recorded as the resume time. *)
Theorem resume_pause_is_skipTime (m : Model) (t0 t : Q) :
  _state m = pristine ->
  t0 <= t ->
  (resume t0 ;; pause t) m =
  (match (skipTime (t - t0) true m).1 with
   | Ok _ => Ok tt
   | Raise e => Raise e
   end,
   set_resume_time t0 (skipTime (t - t0) true m).2).
Proof.
  intros Hst Hle. rewrite bind_eq, resume_eq, Hst. cbn [_model_automata].
  rewrite pause_eq. cbn [_state set_state set_resume_time _model_automata
                         _resume_time].
  assert (E : Qle_bool 0 (t - t0) = true) by (apply Qle_bool_iff; lra).
  rewrite E.
  assert (Em : set_state pristine (set_resume_time t0 (set_state moving m)) =
               set_resume_time t0 m).
  { destruct m. cbn in Hst. subst. reflexivity. }
  rewrite Em, skipTime_resume_time.
  destruct (skipTime (t - t0) true m) as [[d|e] m']; reflexivity.
Qed.

(** The target of [change] is [dirty] or [resolving]. *)
Lemma change_target (s s' : State) :
  _model_automata s change = Some s' -> s' = dirty \/ s' = resolving.
Proof. destruct s; cbn; intros H; inversion H; auto. Qed.

Lemma run_ok_shape (m m' : Model) (op : Op Payload) (v : Value Payload) :
  run op m = (Ok v, m') ->
  (object_positions m' = object_positions m /\ objects m' = objects m /\
   speed m' = speed m) \/
  (_state m' = dirty \/ _state m' = resolving).
Proof.
  assert (Hskip : forall t ce (m0 m0' : Model) d,
    skipTime t ce m0 = (Ok d, m0') ->
    m0' = m0 \/ _model_automata (_state m0) change = Some (_state m0')).
  { intros t ce m0 m0' d H. destruct (Qeq_dec t 0) as [Z|NZ].
    - rewrite (skipTime_zero m0 t ce Z) in H. injection H as _ <-. auto.
    - destruct (skipTime_shape m0 t ce NZ)
        as (r1 & ps' & objs' & Hr1 & _ & Heq).
      cbn zeta in Heq. rewrite Heq in H.
      destruct Hr1 as [-> | ->]; [|discriminate].
      destruct (_model_automata (_state m0) change); [|discriminate].
      injection H as _ <-. right. reflexivity. }
  destruct op; cbn [run]; rewrite bind_eq.
  - rewrite setSpeed_eq.
    destruct (Qle_bool 0 v0 && Qle_bool v0 (max_speed m)); [|discriminate].
    destruct (negb (Qeq_bool (speed m) v0));
      [|intros H; injection H as _ <-; auto].
    destruct (_model_automata (_state m) change) as [s|] eqn:A;
      [|discriminate].
    intros H; injection H as _ <-. right. exact (change_target _ _ A).
  - destruct (putObject_shape m obj_id obj pos) as [(e & _ & ->)|(n & ->)];
      [discriminate|].
    destruct (_model_automata (_state m) change) as [s|] eqn:A;
      [|discriminate].
    intros H; injection H as _ <-. right. exact (change_target _ _ A).
  - rewrite removeObject_eq.
    destruct (list_find _ (object_positions m)) as [[i e]|]; [|discriminate].
    cbn zeta. destruct (objects m !! obj_id); [|discriminate].
    destruct (_model_automata (_state m) change) as [s|] eqn:A;
      [|discriminate].
    intros H; injection H as _ <-. right. exact (change_target _ _ A).
  - destruct (skipTime time clean_ends m) as [[d|e] m0'] eqn:Es;
      [|discriminate].
    intros H; injection H as _ <-.
    destruct (Hskip _ _ _ _ _ Es) as [-> | A]; [auto|].
    right. exact (change_target _ _ A).
  - rewrite resume_eq.
    destruct (_model_automata (_state m) resume_); [|discriminate].
    intros H; injection H as _ <-. auto.
  - rewrite pause_eq.
    destruct (_model_automata (_state m) pause_) as [s|]; [|discriminate].
    destruct (Qle_bool 0 (time - _resume_time m)); [|discriminate].
    destruct (skipTime _ true (set_state s m)) as [[d|e] m0'] eqn:Es;
      [|discriminate].
    intros H; injection H as _ <-.
    destruct (Hskip _ _ _ _ _ Es) as [-> | A]; [auto|].
    right. exact (change_target _ _ A).
  - unfold startResolving. rewrite stateTransfer_eq.
    destruct (_model_automata (_state m) start_resolving); [|discriminate].
    intros H; injection H as _ <-. auto.
  - unfold endResolving. rewrite stateTransfer_eq.
    destruct (_model_automata (_state m) end_resolving); [|discriminate].
    intros H; injection H as _ <-. auto.
  - unfold checkpointPos. unfold_meth.
    destruct (String.eqb cp.1 conv_end);
      [|destruct (checkpoint_positions m !! cp)]; try discriminate;
      intros H; injection H as _ <-; auto.
  - unfold nearestObject. unfold_meth.
    destruct (search_pos (object_positions m) pos) as [found|e];
      [destruct (objects m !! found.1.1)|]; try discriminate;
      intros H; injection H as _ <-; auto.
  - intros H; injection H as _ <-; auto.
  - intros H; injection H as _ <-; auto.
  - intros H; injection H as _ <-; auto.
Qed.

(** X17: a call that returns normally and has changed the position store,
    the object map or the speed leaves the automaton in [dirty] or
    [resolving]; the model can then not be resumed: [resume] raises the
    protocol violation and changes nothing, until the change has been
    reconciled. *)
Theorem changes_leave_dirty (m m' : Model) (op : Op Payload)
  (v : Value Payload) :
  run op m = (Ok v, m') ->
  object_positions m' <> object_positions m \/ objects m' <> objects m \/
    speed m' <> speed m ->
  (_state m' = dirty \/ _state m' = resolving) /\
  forall t, resume t m' = (Raise (AutomataException resume_ (_state m')), m').
Proof.
  intros H Hch.
  assert (Hst : _state m' = dirty \/ _state m' = resolving).
  { destruct (run_ok_shape _ _ _ _ H) as [(E1 & E2 & E3)|Hst]; [|exact Hst].
    exfalso. destruct Hch as [N|[N|N]]; contradiction. }
  split; [exact Hst|]. intros t. rewrite resume_eq.
  destruct Hst as [-> | ->]; reflexivity.
Qed.

(** X18: identifiers that are consistent between the position store and
    the object map, and positions that are rounded, stay so through every
    sequence of calls, whether they return or raise; both hold in every
    model the interface produces. *)
Theorem store_stays_consistent (m : Model) :
  (ids_consistent m -> all_rounded m ->
   forall ops, ids_consistent (calls ops m) /\ all_rounded (calls ops m)) /\
  (reachable m -> ids_consistent m /\ all_rounded m).
Proof.
  split.
  - intros C R ops. revert m C R.
    induction ops as [|op ops IH]; intros m C R; [split; assumption|].
    cbn [calls foldl]. destruct (run op m) as [r m'] eqn:H.
    apply IH; [eapply run_consistent|eapply run_rounded]; eassumption.
  - apply reachable_invariants.
Qed.

Lemma insert_at_perm {X} (l : list X) (n : nat) (x : X) :
  list_insert_at n x l ≡ₚ x :: l.
Proof.
  unfold list_insert_at. rewrite <- Permutation_middle, take_drop.
  reflexivity.
Qed.

(** X19: with consistent identifiers and a position store in ascending
    order without two entries at the same position, putting an object back
    where it was with the payload [removeObject] returned succeeds and
    restores the position store and the object map exactly. *)
Theorem remove_then_put_roundtrip (m m1 : Model) (obj_id : ObjectId)
  (obj : Payload) (p : Q) :
  ids_consistent m ->
  distinct_positions m ->
  (obj_id, p) ∈ object_positions m ->
  rounded p ->
  removeObject obj_id m = (Ok obj, m1) ->
  exists m2,
    putObject obj_id obj p m1 = (Ok tt, m2) /\
    object_positions m2 = object_positions m /\
    objects m2 = objects m.
Proof.
  intros C Hd Hin Hr H.
  assert (Hrun : run (ORemoveObject obj_id) m = (Ok (VObj obj), m1)).
  { cbn [run]. rewrite bind_eq, H. reflexivity. }
  pose proof (run_consistent _ _ _ _ C Hrun) as C1.
  rewrite removeObject_eq in H.
  destruct (list_find _ (object_positions m)) as [[i e]|] eqn:F;
    [|discriminate].
  apply list_find_Some in F as (Hi & He & _). cbn zeta in H.
  destruct (objects m !! obj_id) as [o|] eqn:Ho; [|discriminate].
  destruct (_model_automata (_state m) change) as [s|] eqn:A;
    [|discriminate].
  injection H as -> <-.
  assert (Ee : e = (obj_id, p)).
  { apply list_elem_of_lookup in Hin as [j Hj].
    assert (i = j).
    { apply (proj1 (NoDup_alt _) (proj1 C) i j obj_id); unfold ids;
        rewrite list_lookup_fmap; [rewrite Hi, <- He|rewrite Hj]; reflexivity. }
    subst j. congruence. }
  subst e.
  set (m1 := set_state s
               (set_objects (delete obj_id (objects m))
                  (set_object_positions (delete i (object_positions m)) m)))
    in *.
  assert (L : objects m1 !! obj_id = None) by apply lookup_delete_eq.
  assert (Hd1 : distinct_positions m1).
  { unfold distinct_positions. cbn.
    eapply StronglySorted_sublist; [apply sublist_delete|exact Hd]. }
  destruct (putObject_exec m1 obj_id obj p C1 L)
    as [(e' & other & He' & Heq & _)|(_ & n & Hsorted & Heq)].
  - exfalso. cbn in He'. rewrite Hr in Heq.
    rewrite (delete_is_filter _ _ _ (proj1 C) Hi) in He'.
    apply list_elem_of_filter in He' as [Hne He']. cbn in Hne.
    apply list_elem_of_lookup in He' as [j Hj].
    destruct (Nat.lt_trichotomy i j) as [Lt|[Eq|Lt]].
    + pose proof (sorted_lookup_lt _ _ _ _ _ Hd Hi Hj Lt) as Hlt.
      cbn in Hlt. lra.
    + subst j. rewrite Hi in Hj. injection Hj as <-. apply Hne. reflexivity.
    + pose proof (sorted_lookup_lt _ _ _ _ _ Hd Hj Hi Lt) as Hlt.
      cbn in Hlt. lra.
  - rewrite Heq. cbn [_state m1 set_state]. rewrite (change_twice _ _ A).
    eexists. split; [reflexivity|]. cbn. rewrite Hr. split.
    + specialize (Hsorted Hd1). cbn in Hsorted. rewrite Hr in Hsorted.
      apply (StronglySorted_unique_strong pos_lt); [|exact Hsorted|exact Hd|].
      * intros x1 x2 _ _ H1 H2. unfold pos_lt in *. lra.
      * rewrite insert_at_perm. symmetry. apply delete_Permutation, Hi.
    + apply insert_delete_id, Ho.
Qed.

End Store.

(** ** The further properties on sample models *)

Import EventSamples.

Example scenario_reached :
  (setSpeed 1 ;; putObject 1%Z "X"%string 0) two_checkpoints
  = (Ok tt, scenario).
Proof. vm_compute. reflexivity. Qed.

Example scenario_at_A_reached :
  skipTime 3 true scenario = (Ok (3 * 1), scenario_at_A).
Proof. vm_compute. reflexivity. Qed.

(** The object starts 3 before checkpoint A; after [skipTime(3)] it sits on
    A, which is then skipped for B, and reported as immediate. *)
Example scenario_events :
  nextEvents None None true scenario =
    (Ok [("X"%string, ("A"%string, 0%Z), (300000 # 100000) * / 1)], scenario) /\
  nextEvents None None true scenario_at_A =
    (Ok [("X"%string, ("B"%string, 0%Z), (400000 # 100000) * / 1)],
     scenario_at_A) /\
  immediateEvents None None scenario_at_A =
    (Ok [("X"%string, ("A"%string, 0%Z), (0 # 100000) * / 1)], scenario_at_A).
Proof. repeat split; vm_compute; reflexivity. Qed.

Lemma init_establishes_geometry_witness :
  __init__ 10 1 [(("B"%string, 0%Z), 7); (("A"%string, 0%Z), 3)]
    ("world"%string, 0%Z) = Ok two_checkpoints /\
  checkpoints two_checkpoints =
    [(("A"%string, 0%Z), 3); (("B"%string, 0%Z), 7)] /\
  StronglySorted (fun a b : CheckpointId * Q => a.2 < b.2)
    (checkpoints two_checkpoints) /\
  Forall (fun c : CheckpointId * Q => 0 <= c.2 /\ c.2 < length two_checkpoints)
    (checkpoints two_checkpoints).
Proof.
  assert (H : __init__ 10 1 [(("B"%string, 0%Z), 7); (("A"%string, 0%Z), 3)]
                ("world"%string, 0%Z) = Ok two_checkpoints)
    by (vm_compute; reflexivity).
  destruct (init_establishes_geometry _ _ _ _ _ H)
    as (_ & _ & _ & _ & _ & _ & Hs & F & _).
  split; [exact H|]. split; [reflexivity|]. split; [exact Hs|exact F].
Defined.

Lemma checkpointPos_stored_witness :
  __init__ 10 1 [(("B"%string, 0%Z), 7); (("A"%string, 0%Z), 3)]
    ("world"%string, 0%Z) = Ok two_checkpoints /\
  checkpointPos ("A"%string, 0%Z) two_checkpoints = (Ok 3, two_checkpoints) /\
  checkpointPos ("C"%string, 0%Z) two_checkpoints =
    (Raise KeyError, two_checkpoints).
Proof.
  assert (H : __init__ 10 1 [(("B"%string, 0%Z), 7); (("A"%string, 0%Z), 3)]
                ("world"%string, 0%Z) = Ok two_checkpoints)
    by (vm_compute; reflexivity).
  split; [exact H|]. split.
  - destruct (checkpointPos_stored _ _ _ _ _ ("A"%string, 0%Z) H)
      as (_ & _ & H3); [discriminate|].
    apply H3; compute_done.
  - destruct (checkpointPos_stored _ _ _ _ _ ("C"%string, 0%Z) H)
      as (H1 & _); [discriminate|].
    apply H1. compute_done.
Defined.

Lemma speed_stays_in_range_witness :
  reachable Samples.fresh /\
  0 <= speed Samples.fresh /\
  speed Samples.fresh <= max_speed Samples.fresh /\
  speed (calls [OSetSpeed (1 # 2); OSetSpeed 5; OPause 3] Samples.fresh)
    = 1 # 2 /\
  0 <= speed (calls [OSetSpeed (1 # 2); OSetSpeed 5; OPause 3]
                Samples.fresh) /\
  speed (calls [OSetSpeed (1 # 2); OSetSpeed 5; OPause 3] Samples.fresh)
    <= max_speed (calls [OSetSpeed (1 # 2); OSetSpeed 5; OPause 3]
                    Samples.fresh).
Proof.
  assert (R : reachable Samples.fresh).
  { apply (reach_init 1 1 [] ("world"%string, 0%Z)). reflexivity. }
  destruct (speed_stays_in_range Samples.fresh) as [H1 H2].
  split; [exact R|]. split; [exact (proj1 (H2 R))|].
  split; [exact (proj2 (H2 R))|]. split; [reflexivity|].
  exact (H1 (H2 R) [OSetSpeed (1 # 2); OSetSpeed 5; OPause 3]).
Defined.

Lemma moving_freezes_model_witness :
  _state Samples.two_moving = moving /\
  run (OSetSpeed 1) Samples.two_moving =
    (Ok VNone, (run (OSetSpeed 1) Samples.two_moving).2) /\
  (run (OSetSpeed 1) Samples.two_moving).2 = Samples.two_moving.
Proof.
  assert (H : run (OSetSpeed 1) Samples.two_moving =
              (Ok VNone, (run (OSetSpeed 1) Samples.two_moving).2))
    by (vm_compute; reflexivity).
  split; [reflexivity|]. split; [exact H|].
  apply (moving_freezes_model Samples.two_moving _ (OSetSpeed 1) VNone);
    [reflexivity|discriminate|exact H].
Defined.

Lemma putObject_stores_witness :
  ids_consistent Samples.two_close /\
  putObject 1%Z "c"%string (1 # 2) Samples.two_close =
    (Raise (AssertionError "Clashing object ID!"), Samples.two_close) /\
  objects (putObject 3%Z "c"%string (1 # 200) Samples.two_close).2 =
    <[3%Z := "c"%string]> (objects Samples.two_close) /\
  exists n,
    object_positions (putObject 3%Z "c"%string (1 # 200) Samples.two_close).2 =
      take n (object_positions Samples.two_close) ++
      (3%Z, round5 (1 # 200)) :: drop n (object_positions Samples.two_close).
Proof.
  assert (C : ids_consistent Samples.two_close) by compute_done.
  split; [exact C|]. split.
  - apply (putObject_stores Samples.two_close 1%Z "c"%string (1 # 2) C).
    discriminate.
  - destruct (putObject_stores Samples.two_close 3%Z "c"%string (1 # 200) C)
      as [_ H].
    destruct (H (putObject 3%Z "c"%string (1 # 200) Samples.two_close).2)
      as (_ & _ & Ho & Hp & _); [vm_compute; reflexivity|].
    split; [exact Ho|exact Hp].
Defined.

Lemma removeObject_removes_witness :
  ids_consistent Samples.two_close /\
  removeObject 7%Z Samples.two_close = (Raise TypeError, Samples.two_close) /\
  (removeObject 1%Z Samples.two_close).1 = Ok "a"%string /\
  object_positions (removeObject 1%Z Samples.two_close).2 =
    [(2%Z, 1 # 100000)] /\
  objects (removeObject 1%Z Samples.two_close).2 =
    delete 1%Z (objects Samples.two_close).
Proof.
  assert (C : ids_consistent Samples.two_close) by compute_done.
  destruct (removeObject_removes Samples.two_close 7%Z C) as [H7 _].
  destruct (removeObject_removes Samples.two_close 1%Z C) as [_ H1].
  destruct (H1 "a"%string (removeObject 1%Z Samples.two_close).2)
    as (_ & Ho & Hp & _); [vm_compute; reflexivity|].
  split; [exact C|]. split; [apply H7; reflexivity|].
  split; [reflexivity|]. split; [rewrite Hp; reflexivity|exact Ho].
Defined.


Lemma resume_pause_is_skipTime_witness :
  _state two_pristine = pristine /\
  (resume 2 ;; pause 3) two_pristine =
    (Ok tt, set_resume_time 2 (skipTime (3 - 2) true two_pristine).2) /\
  object_positions (skipTime (3 - 2) true two_pristine).2 =
    [(1%Z, 100000 # 100000)].
Proof.
  split; [reflexivity|]. split; [|reflexivity].
  rewrite (resume_pause_is_skipTime two_pristine 2 3 eq_refl);
    [reflexivity|compute_done].
Defined.

Lemma nextEvents_sound_witness :
  nextEvents None None true scenario =
    (Ok [("X"%string, ("A"%string, 0%Z), (300000 # 100000) * / 1)], scenario) /\
  Forall (event_of scenario None None true)
    [("X"%string, ("A"%string, 0%Z), (300000 # 100000) * / 1)].
Proof.
  assert (H : nextEvents None None true scenario =
    (Ok [("X"%string, ("A"%string, 0%Z), (300000 # 100000) * / 1)], scenario))
    by (vm_compute; reflexivity).
  split; [exact H|]. exact (proj2 (nextEvents_sound _ _ _ _ _ _ H)).
Defined.



Lemma nextEvents_outcome_witness :
  ids_consistent Samples.one_below /\
  speed Samples.one_below == 0 /\
  nextEvents None None true Samples.one_below = (Ok [], Samples.one_below) /\
  ~ speed (set_speed 1 Samples.one_below) == 0 /\
  nextEvents None None true (set_speed 1 Samples.one_below) =
    (Raise (AssertionError
       "`nextEvents` on conveyor with undefined object positions!"),
     set_speed 1 Samples.one_below) /\
  exists evs, nextEvents None None true scenario = (Ok evs, scenario).
Proof.
  assert (C : ids_consistent Samples.one_below) by compute_done.
  assert (C' : ids_consistent (set_speed 1 Samples.one_below))
    by compute_done.
  assert (Cs : ids_consistent scenario) by compute_done.
  assert (N : ~ speed (set_speed 1 Samples.one_below) == 0) by compute_done.
  destruct (nextEvents_outcome None None true Samples.one_below C)
    as (H0 & _).
  destruct (nextEvents_outcome None None true (set_speed 1 Samples.one_below)
              C') as (_ & _ & H2).
  destruct (nextEvents_outcome None None true scenario Cs) as (_ & H1 & _).
  split; [exact C|]. split; [reflexivity|]. split; [apply H0; reflexivity|].
  split; [exact N|]. split; [apply H2; [exact N|compute_done]|].
  apply H1; compute_done.
Defined.


Lemma immediateEvents_complete_witness :
  sorted_positions scenario_at_A /\
  (1%Z, 300000 # 100000) ∈ selected_objects None scenario_at_A /\
  (("A"%string, 0%Z), 3) ∈ selected_checkpoints None scenario_at_A /\
  3 == 300000 # 100000 /\
  exists t, t == 0 /\
    ("X"%string, ("A"%string, 0%Z), t) ∈
      [("X"%string, ("A"%string, 0%Z), (0 # 100000) * / 1)].
Proof.
  assert (H : immediateEvents None None scenario_at_A =
    (Ok [("X"%string, ("A"%string, 0%Z), (0 # 100000) * / 1)], scenario_at_A))
    by (vm_compute; reflexivity).
  assert (S : sorted_positions scenario_at_A) by compute_done.
  assert (Sc : StronglySorted (fun a b : CheckpointId * Q => a.2 < b.2)
                 (checkpoints scenario_at_A))
    by (repeat constructor; compute_done).
  assert (N : ~ speed scenario_at_A == 0) by compute_done.
  assert (Ho : (1%Z, 300000 # 100000) ∈ selected_objects None scenario_at_A)
    by compute_done.
  assert (Hc : (("A"%string, 0%Z), 3) ∈
               selected_checkpoints None scenario_at_A) by compute_done.
  assert (E : 3 == 300000 # 100000) by reflexivity.
  split; [exact S|]. split; [exact Ho|]. split; [exact Hc|].
  split; [exact E|].
  exact (immediateEvents_complete None None scenario_at_A _ _ 1%Z
           (300000 # 100000) "X"%string ("A"%string, 0%Z) 3
           S Sc N H Ho eq_refl Hc E).
Defined.

Lemma changes_leave_dirty_witness :
  run (OSetSpeed (1 # 2)) Samples.two_close =
    (Ok VNone, (run (OSetSpeed (1 # 2)) Samples.two_close).2) /\
  speed (run (OSetSpeed (1 # 2)) Samples.two_close).2 <>
    speed Samples.two_close /\
  _state (run (OSetSpeed (1 # 2)) Samples.two_close).2 = dirty /\
  resume 0 (run (OSetSpeed (1 # 2)) Samples.two_close).2 =
    (Raise (AutomataException resume_ dirty),
     (run (OSetSpeed (1 # 2)) Samples.two_close).2).
Proof.
  assert (H : run (OSetSpeed (1 # 2)) Samples.two_close =
              (Ok VNone, (run (OSetSpeed (1 # 2)) Samples.two_close).2))
    by (vm_compute; reflexivity).
  assert (N : speed (run (OSetSpeed (1 # 2)) Samples.two_close).2 <>
              speed Samples.two_close) by (vm_compute; discriminate).
  destruct (changes_leave_dirty _ _ _ _ H (or_intror (or_intror N)))
    as [_ Hres].
  split; [exact H|]. split; [exact N|]. split; [reflexivity|].
  exact (Hres 0).
Defined.

Lemma store_stays_consistent_witness :
  reachable Samples.fresh /\
  ids_consistent Samples.fresh /\ all_rounded Samples.fresh /\
  ids_consistent
    (calls [OPutObject 1%Z "a"%string (1 # 3); OResume 0;
            OPutObject 2%Z "b"%string (2 # 3); ORemoveObject 1%Z]
       Samples.fresh) /\
  all_rounded
    (calls [OPutObject 1%Z "a"%string (1 # 3); OResume 0;
            OPutObject 2%Z "b"%string (2 # 3); ORemoveObject 1%Z]
       Samples.fresh).
Proof.
  assert (R : reachable Samples.fresh).
  { apply (reach_init 1 1 [] ("world"%string, 0%Z)). reflexivity. }
  destruct (store_stays_consistent Samples.fresh) as [H1 H2].
  destruct (H2 R) as [C Ro].
  split; [exact R|]. split; [exact C|]. split; [exact Ro|].
  exact (H1 C Ro _).
Defined.

Lemma remove_then_put_roundtrip_witness :
  ids_consistent Samples.two_close /\
  distinct_positions Samples.two_close /\
  (1%Z, 0 # 100000) ∈ object_positions Samples.two_close /\
  rounded (0 # 100000) /\
  removeObject 1%Z Samples.two_close =
    (Ok "a"%string, (removeObject 1%Z Samples.two_close).2) /\
  exists m2,
    putObject 1%Z "a"%string (0 # 100000)
      (removeObject 1%Z Samples.two_close).2 = (Ok tt, m2) /\
    object_positions m2 = object_positions Samples.two_close /\
    objects m2 = objects Samples.two_close.
Proof.
  assert (C : ids_consistent Samples.two_close) by compute_done.
  assert (D : distinct_positions Samples.two_close) by compute_done.
  assert (I : (1%Z, 0 # 100000) ∈ object_positions Samples.two_close)
    by compute_done.
  assert (Rd : rounded (0 # 100000)) by reflexivity.
  assert (H : removeObject 1%Z Samples.two_close =
              (Ok "a"%string, (removeObject 1%Z Samples.two_close).2))
    by (vm_compute; reflexivity).
  split; [exact C|]. split; [exact D|]. split; [exact I|].
  split; [exact Rd|]. split; [exact H|].
  exact (remove_then_put_roundtrip _ _ _ _ _ C D I Rd H).
Defined.
